(** * HL23 rTMS/LFP: the stimulation protocol ([tms.py]) and the offline
      analyzer ([analyze_rtms_lfp.py]), embedded and verified.

    Numbers.  Python floats are modelled as exact rationals ([Q]); Python
    integers as [Z].  [int(x)] truncates toward zero.  Equality of rationals
    is [Qeq] ([==]); where the code's expression is kept verbatim the
    statements use Leibniz equality.  Rounding of binary floating point,
    infinities and NaN are outside this model.

    Dictionaries are finite maps ([gmap]) except where iteration order is
    observable ([cell.secs]), which is an association list.  Attribute and
    key lookups that the code performs unguarded on well-typed input
    ([1000.0 / freq_Hz], [list(keys)[0]], boolean-mask indexing) raise in the
    model as they do in Python.  [print] calls are not modelled. *)

From Stdlib Require Import ZArith QArith Qround Qabs Lia Lqa.
From Stdlib Require Floats.
From stdpp Require Import base option list gmap strings.

Local Open Scope Z_scope.
Local Open Scope Q_scope.

(** ** Python primitives *)

Inductive exn : Set :=
| ZeroDivisionError
| IndexError
| KeyError
| ValueError.

Inductive outcome (A : Type) : Type :=
| Ok (a : A)
| Raises (e : exn).
Arguments Ok {A} a.
Arguments Raises {A} e.

Definition obind {A B} (m : outcome A) (f : A → outcome B) : outcome B :=
  match m with
  | Ok a => f a
  | Raises e => Raises e
  end.

#[export] Instance outcome_ret : MRet outcome := @Ok.
#[export] Instance outcome_bind : MBind outcome := λ A B f m, obind m f.

(** [int(x)] on a float: truncation toward zero. *)
Definition py_int (x : Q) : Z := Z.quot (Qnum x) (Z.pos (Qden x)).

(** [x / y] on Python floats. *)
Definition py_div (x y : Q) : outcome Q :=
  if Qeq_bool y 0 then Raises ZeroDivisionError else Ok (x / y).

(** [range(n)]. *)
Definition range (n : Z) : list Z := map Z.of_nat (seq 0 (Z.to_nat n)).

(** [range(a, b)]. *)
Definition range2 (a b : Z) : list Z :=
  map (λ i, (a + Z.of_nat i)%Z) (seq 0 (Z.to_nat (b - a))).

(** ** [tms.py] *)

Module Tms.

(** [cfg.tms_params]: the five keys the code reads with [tms_params[...]]. *)
Record tms_params_t : Type := {
  ef_amp_V_per_m : Q;
  freq_Hz : Q;
  stim_start_ms : Q;
  stim_end_ms : Q;
  width_ms : Q
}.

(** The config object; [hasattr(cfg, 'tms_params')] is [is_Some]. *)
Record cfg_t : Type := { tms_params : option tms_params_t }.

(** The [geometry] table of [convert_field_to_current]. *)
Definition geometry : gmap string (gmap string Q) :=
  {[ "HL23PYR" := {[ "soma" := 0.025; "apical" := 0.05; "basal" := 0.03 ]};
     "HL23PV"  := {[ "soma" := 0.015 ]};
     "HL23SST" := {[ "soma" := 0.015 ]};
     "HL23VIP" := {[ "soma" := 0.015 ]} ]}.

(** [geometry.get(cell_type, {}).get(compartment, 0.02)] *)
Definition conversion_factor (cell_type compartment : string) : Q :=
  default 0.02 (default ∅ (geometry !! cell_type) !! compartment).

Definition convert_field_to_current (field_Vm : Q) (cell_type compartment : string) : Q :=
  field_Vm * conversion_factor cell_type compartment.

(** [n_pulses = int(stim_duration * freq_Hz / 1000.0)], as written in
    [apply_tms_from_params] (lines 63-64). *)
Definition n_pulses_apply (p : tms_params_t) : Z :=
  let stim_duration := stim_end_ms p - stim_start_ms p in
  py_int (stim_duration * freq_Hz p / 1000).

(** The same quantity as written in [get_tms_pulse_times] (lines 116-117). *)
Definition n_pulses_helper (p : tms_params_t) : Z :=
  let stim_duration := stim_end_ms p - stim_start_ms p in
  py_int (stim_duration * freq_Hz p / 1000).

(** [get_tms_pulse_times(cfg)] *)
Definition get_tms_pulse_times (cfg : cfg_t) : outcome (list Q) :=
  match tms_params cfg with
  | Some p =>
      let freq_Hz := freq_Hz p in
      let stim_start := stim_start_ms p in
      let n_pulses := n_pulses_helper p in
      (pulse_interval ← py_div 1000 freq_Hz;
       Ok (map (λ i, stim_start + inject_Z i * pulse_interval) (range n_pulses)))
  | None => Ok []
  end.

(** *** The external simulator

    [tms.py] talks to the simulator in three ways: it reads the cell roster
    [sim.net.cells], it creates a current clamp [h.IClamp(sec(0.5))], and it
    assigns the clamp's [delay], [dur] and [amp].  A program is a tree of
    these operations; [run] executes it against a simulator state and also
    reports the operations performed, in order. *)

(** A NEURON section object ([cell.secs[name]['hObj']]). *)
Definition sec_ref := positive.

(** A reference to a point process created by [h.IClamp]. *)
Definition handle := nat.

Record section_t : Type := { hObj : sec_ref }.

(** A cell of [sim.net.cells]: its [tags] dict and its [secs] dict, the
    latter in declaration order. *)
Record cell_t : Type := {
  tags : gmap string string;
  secs : list (string * section_t)
}.

Record iclamp_t : Type := {
  ic_sec : sec_ref;
  ic_loc : Q;
  delay : Q;
  dur : Q;
  amp : Q
}.

Inductive attr : Set := Delay | Dur | Amp.

Definition set_attr (f : attr) (v : Q) (c : iclamp_t) : iclamp_t :=
  match f with
  | Delay => {| ic_sec := ic_sec c; ic_loc := ic_loc c; delay := v; dur := dur c; amp := amp c |}
  | Dur => {| ic_sec := ic_sec c; ic_loc := ic_loc c; delay := delay c; dur := v; amp := amp c |}
  | Amp => {| ic_sec := ic_sec c; ic_loc := ic_loc c; delay := delay c; dur := dur c; amp := v |}
  end.

(** Simulator state: the roster and the point processes created so far. *)
Record sim_t : Type := {
  net_cells : list cell_t;
  point_processes : list iclamp_t
}.

Inductive prog (A : Type) : Type :=
| Ret (a : A)
| Throw (e : exn)
| NetCells (k : list cell_t → prog A)
| IClamp (sec : sec_ref) (x : Q) (k : handle → prog A)
| SetAttr (h : handle) (f : attr) (v : Q) (k : prog A).
Arguments Ret {A} a.
Arguments Throw {A} e.
Arguments NetCells {A} k.
Arguments IClamp {A} sec x k.
Arguments SetAttr {A} h f v k.

Fixpoint bind {A B} (m : prog A) (f : A → prog B) : prog B :=
  match m with
  | Ret a => f a
  | Throw e => Throw e
  | NetCells k => NetCells (λ cs, bind (k cs) f)
  | IClamp sec x k => IClamp sec x (λ h, bind (k h) f)
  | SetAttr h a v k => SetAttr h a v (bind k f)
  end.

#[export] Instance prog_ret : MRet prog := @Ret.
#[export] Instance prog_bind : MBind prog := λ A B f m, bind m f.

Definition lift {A} (o : outcome A) : prog A :=
  match o with
  | Ok a => Ret a
  | Raises e => Throw e
  end.

Definition net_cells_op : prog (list cell_t) := NetCells Ret.
Definition new_iclamp (sec : sec_ref) (x : Q) : prog handle := IClamp sec x Ret.
Definition assign (h : handle) (f : attr) (v : Q) : prog unit := SetAttr h f v (Ret tt).

Inductive event : Type :=
| EvNetCells
| EvIClamp (sec : sec_ref) (x : Q)
| EvSetAttr (h : handle) (f : attr) (v : Q).

Record run_result (A : Type) : Type := {
  returned : outcome A;
  final : sim_t;
  performed : list event
}.
Arguments returned {A} r.
Arguments final {A} r.
Arguments performed {A} r.

Definition after {A} (ev : event) (r : run_result A) : run_result A :=
  {| returned := returned r; final := final r; performed := ev :: performed r |}.

(** A fresh clamp has NEURON's defaults (all zero).  A handle is an object
    reference and is always live in the source; [alter] leaves the store
    unchanged on an index that was never allocated. *)
Fixpoint run {A} (p : prog A) (s : sim_t) : run_result A :=
  match p with
  | Ret a => {| returned := Ok a; final := s; performed := [] |}
  | Throw e => {| returned := Raises e; final := s; performed := [] |}
  | NetCells k => after EvNetCells (run (k (net_cells s)) s)
  | IClamp sec x k =>
      let h := length (point_processes s) in
      let c := {| ic_sec := sec; ic_loc := x; delay := 0; dur := 0; amp := 0 |} in
      after (EvIClamp sec x)
        (run (k h) {| net_cells := net_cells s;
                      point_processes := point_processes s ++ [c] |})
  | SetAttr h f v k =>
      after (EvSetAttr h f v)
        (run k {| net_cells := net_cells s;
                  point_processes := alter (set_attr f v) h (point_processes s) |})
  end.

(** [for x in xs: acc = body(acc, x)] *)
Fixpoint for_each {X S} (xs : list X) (body : S → X → prog S) (acc : S) : prog S :=
  match xs with
  | [] => Ret acc
  | x :: xs' => acc' ← body acc x; for_each xs' body acc'
  end.

(** [apply_biphasic_pulse(soma_sec, onset, amp_nA, duration)] *)
Definition apply_biphasic_pulse (soma_sec : sec_ref) (onset amp_nA duration : Q)
  : prog (list handle) :=
  let phase_dur := duration / 2 in
  stim1 ← new_iclamp soma_sec 0.5;
  assign stim1 Delay onset;;
  assign stim1 Dur phase_dur;;
  assign stim1 Amp amp_nA;;
  stim2 ← new_iclamp soma_sec 0.5;
  assign stim2 Delay (onset + phase_dur);;
  assign stim2 Dur phase_dur;;
  assign stim2 Amp (- amp_nA);;
  mret [stim1; stim2].

(** [name in cell.secs] / [cell.secs[name]] *)
Definition secs_get (name : string) (l : list (string * section_t)) : option section_t :=
  (λ r, r.2.2) <$> list_find (λ kv, kv.1 = name) l.

(** Lines 85-92 of [apply_tms_from_params]: the section that is stimulated. *)
Definition find_soma (cell : cell_t) : outcome sec_ref :=
  match secs_get "soma_0" (secs cell) with
  | Some s => Ok (hObj s)
  | None =>
      match secs_get "soma" (secs cell) with
      | Some s => Ok (hObj s)
      | None =>
          match secs cell with
          | (first_sec_name, s) :: _ => Ok (hObj s)
          | [] => Raises IndexError
          end
      end
  end.

(** [cell.tags.get('pop') == target_pop] *)
Definition in_pop (target_pop : string) (cell : cell_t) : bool :=
  bool_decide (tags cell !! "pop" = Some target_pop).

(** Lines 95-98: the body of [for pulse_idx in range(n_pulses)], for the
    [target_pop], parameters and [pulse_interval] of the enclosing call. *)
Definition pulse_body (target_pop : string) (p : tms_params_t) (pulse_interval : Q)
    (soma_sec : sec_ref) (clamps : list handle) (pulse_idx : Z) : prog (list handle) :=
  let amp_nA := convert_field_to_current (ef_amp_V_per_m p) target_pop "soma" in
  let pulse_onset := stim_start_ms p + inject_Z pulse_idx * pulse_interval in
  pulse_clamps ← apply_biphasic_pulse soma_sec pulse_onset amp_nA (width_ms p);
  mret (clamps ++ pulse_clamps).

(** Lines 83-100: the body of [for cell in sim.net.cells]. *)
Definition cell_body (target_pop : string) (p : tms_params_t) (pulse_interval : Q)
    (clamps : list handle) (cell : cell_t) : prog (list handle) :=
  if in_pop target_pop cell then
    soma_sec ← lift (find_soma cell);
    for_each (range (n_pulses_apply p)) (pulse_body target_pop p pulse_interval soma_sec) clamps
  else mret clamps.

(** [apply_tms_from_params(sim, cfg, target_pop)]; [sim] is the state the
    program runs against.  The interval is computed (and may raise) before
    the roster is read. *)
Definition apply_tms_from_params (cfg : cfg_t) (target_pop : string) : prog (list handle) :=
  match tms_params cfg with
  | None => Ret []
  | Some p =>
      (pulse_interval ← lift (py_div 1000 (freq_Hz p));
       cells ← net_cells_op;
       for_each cells (cell_body target_pop p pulse_interval) [])
  end.

End Tms.

(** ** [test_rtms_lfp_quick.py] *)

Module QuickTest.
Import Tms.

(** Lines 59-60: the script's own pulse count, from the [cfg.tms_params] it
    has just overridden. *)
Definition _n_pulses (p : tms_params_t) : Z :=
  let _tms_duration := stim_end_ms p - stim_start_ms p in
  py_int (_tms_duration * freq_Hz p / 1000).

End QuickTest.

(** ** numpy operations used by the analyzer *)

(** [np.arange(start, stop, step)]: [ceil((stop - start) / step)] elements
    [start + i * step]; a zero step divides by zero. *)
Definition np_arange (start stop step : Q) : outcome (list Q) :=
  len ← py_div (stop - start) step;
  Ok (map (λ i, start + inject_Z i * step) (range (Qceiling len))).

(** [x < y] *)
Definition Qlt_bool (x y : Q) : bool := negb (Qle_bool y x).

(** [a.searchsorted(v, 'left')] and [a.searchsorted(v, 'right')] for one [v]:
    the number of elements below [v], respectively not above it. *)
Definition count_lt (a : list Q) (v : Q) : Z :=
  Z.of_nat (length (filter (λ x, Qlt_bool x v) a)).
Definition count_le (a : list Q) (v : Q) : Z :=
  Z.of_nat (length (filter (λ x, Qle_bool x v) a)).

(** numpy's [_search_sorted_inclusive]: left-inclusive for every edge but
    the last, which is right-inclusive. *)
Fixpoint search_sorted_inclusive (a : list Q) (edges : list Q) : list Z :=
  match edges with
  | [] => []
  | [e] => [count_le a e]
  | e :: rest => count_lt a e :: search_sorted_inclusive a rest
  end.

(** [np.diff] *)
Fixpoint np_diff (l : list Z) : list Z :=
  match l with
  | x :: (y :: _) as rest => (y - x)%Z :: np_diff rest
  | _ => []
  end.

(** [np.any(bin_edges[:-1] > bin_edges[1:])] *)
Fixpoint any_decreasing (edges : list Q) : bool :=
  match edges with
  | x :: (y :: _) as rest => Qlt_bool y x || any_decreasing rest
  | _ => false
  end.

(** [np.histogram(a, bins=edges)] for an explicit edge array: the counts. *)
Definition np_histogram (a : list Q) (edges : list Q) : outcome (list Z) :=
  if any_decreasing edges then Raises ValueError
  else Ok (np_diff (search_sorted_inclusive a edges)).

(** ** [analyze_rtms_lfp.py] *)

Module Analyze.

(** A value that is an integer or a list of integers. *)
Inductive pyval : Type :=
| PInt (n : Z)
| PList (l : list Z).

(** The persisted record, as far as the population resolver and the rate
    histogram read it, typed as the simulator writes it: a roster entry
    always carries its [gid], table counts and gids are integers, spike
    times are floats.  Absent keys are [None].  The [cellGids] value of a
    [net.pops] entry is kept as it is stored, a number or a list. *)
Record cell_rec : Type := {
  gid : Z;
  tags : option (gmap string string)
}.

Record pop_rec : Type := { cellGids : option pyval }.

Record net_t : Type := {
  pops : option (gmap string pop_rec);
  cells : option (list cell_rec)
}.

Record config_t : Type := {
  duration : option Q;
  cellNumber : option (gmap string Z)
}.

Record simData_t : Type := {
  spkt : option (list Q);
  spkid : option (list Z)
}.

Record data_t : Type := {
  simData : option simData_t;
  simConfig : option config_t;
  net : option net_t
}.

(** The analyzer object after [__init__]. *)
Record analyzer : Type := {
  data : data_t;
  spikes_times : list Q;
  spikes_ids : list Z;
  config : option config_t;
  self_duration : Q
}.

(** [load_data]: the spike arrays, the config and the duration. *)
Definition load_data (d : data_t) : outcome analyzer :=
  spikes ← match simData d with
           | Some sd =>
               match spkt sd with
               | Some times =>
                   match spkid sd with
                   | Some ids => Ok (times, ids)
                   | None => Raises KeyError
                   end
               | None => Ok ([], [])
               end
           | None => Ok ([], [])
           end;
  let dur := match simConfig d with
             | Some c => default 2000 (duration c)
             | None => 2000
             end in
  Ok {| data := d; spikes_times := spikes.1; spikes_ids := spikes.2;
        config := simConfig d; self_duration := dur |}.

(** [cell.get('tags', {}).get('pop') == pop_name] *)
Definition has_pop (pop_name : string) (cell : cell_rec) : Prop :=
  default ∅ (tags cell) !! "pop" = Some pop_name.

#[export] Instance has_pop_dec pop_name cell : Decision (has_pop pop_name cell).
Proof. unfold has_pop. apply _. Defined.

(** [self.config and 'cellNumber' in self.config] *)
Definition config_cellNumber (self : analyzer) : option (gmap string Z) :=
  match config self with
  | Some c => cellNumber c
  | None => None
  end.

(** ['net' in self.data and 'pops' in self.data['net']] *)
Definition net_pops (self : analyzer) : option (gmap string pop_rec) :=
  match net (data self) with
  | Some n => pops n
  | None => None
  end.

(** ['net' in self.data and 'cells' in self.data['net']] *)
Definition net_cells (self : analyzer) : option (list cell_rec) :=
  match net (data self) with
  | Some n => cells n
  | None => None
  end.

(** [get_population_cell_count(pop_name)] *)
Definition get_population_cell_count (self : analyzer) (pop_name : string) : pyval :=
  match config_cellNumber self with
  | Some cell_number => PInt (default 0%Z (cell_number !! pop_name))
  | None =>
      match default ∅ (net_pops self) !! pop_name with
      | Some pop => default (PInt 0) (cellGids pop)
      | None =>
          match net_cells self with
          | Some cs => PInt (Z.of_nat (length (filter (has_pop pop_name) cs)))
          | None => PInt 0
          end
      end
  end.

Definition pop_order : list string := ["HL23PYR"; "HL23PV"; "HL23SST"; "HL23VIP"].

(** The loop of lines 142-147, from [gid_start]; falling off the end of the
    loop reaches the final [return []]. *)
Fixpoint gid_ranges (cell_counts : gmap string Z) (pop_name : string)
    (order : list string) (gid_start : Z) : list Z :=
  match order with
  | [] => []
  | pop :: rest =>
      let count := default 0%Z (cell_counts !! pop) in
      if decide (pop = pop_name) then range2 gid_start (gid_start + count)
      else gid_ranges cell_counts pop_name rest (gid_start + count)
  end.

(** [get_population_gids(pop_name)] *)
Definition get_population_gids (self : analyzer) (pop_name : string) : list Z :=
  match net_cells self with
  | Some cs => gid <$> filter (has_pop pop_name) cs
  | None =>
      match config_cellNumber self with
      | Some cell_counts => gid_ranges cell_counts pop_name pop_order 0
      | None => []
      end
  end.

(** [times[mask]] for a boolean mask: the lengths must agree. *)
Fixpoint mask_select (times : list Q) (mask : list bool) : outcome (list Q) :=
  match times, mask with
  | [], [] => Ok []
  | t :: times', b :: mask' =>
      rest ← mask_select times' mask';
      Ok (if b then t :: rest else rest)
  | _, _ => Raises IndexError
  end.

(** [get_population_spikes(pop_name)] *)
Definition get_population_spikes (self : analyzer) (pop_name : string) : outcome (list Q) :=
  let pop_gids := get_population_gids self pop_name in
  match pop_gids with
  | [] => Ok []
  | _ =>
      let mask := (λ i, bool_decide (i ∈ pop_gids)) <$> spikes_ids self in
      mask_select (spikes_times self) mask
  end.

(** The rate array of the histogram.  [PerGid scaled gids] stands for the
    numpy expression [scaled / gids] left unevaluated: the source reaches it
    when the resolved cell count is a gid list. *)
Inductive rates_t : Type :=
| Rates (r : list Q)
| PerGid (scaled : list Q) (gids : list Z).

(** [(bin_edges[:-1] + bin_edges[1:]) / 2] *)
Fixpoint midpoints (edges : list Q) : list Q :=
  match edges with
  | x :: (y :: _) as rest => (x + y) / 2 :: midpoints rest
  | _ => []
  end.

(** [n_cells == 0] *)
Definition is_zero (v : pyval) : bool :=
  match v with
  | PInt n => (n =? 0)%Z
  | PList _ => false
  end.

(** [compute_firing_rate_histogram(pop_name, bin_size)]: bin centers and
    firing rates. *)
Definition compute_firing_rate_histogram (self : analyzer) (pop_name : string)
    (bin_size : Q) : outcome (list Q * rates_t) :=
  spike_times ← get_population_spikes self pop_name;
  let n_cells := get_population_cell_count self pop_name in
  if bool_decide (length spike_times = 0%nat) || is_zero n_cells then
    q ← py_div (self_duration self) bin_size;
    let n_bins := py_int q in
    if (n_bins <? 0)%Z then Raises ValueError
    else Ok ((λ i, inject_Z i * bin_size + bin_size / 2) <$> range n_bins,
             Rates ((λ _, 0) <$> range n_bins))
  else
    bins ← np_arange 0 (self_duration self + bin_size) bin_size;
    counts ← np_histogram spike_times bins;
    let scaled := (λ c, inject_Z c / (bin_size / 1000)) <$> counts in
    let firing_rates :=
      match n_cells with
      | PInt n => Rates ((λ x, x / inject_Z n) <$> scaled)
      | PList gids => PerGid scaled gids
      end in
    Ok (midpoints bins, firing_rates).

End Analyze.

Import Tms Analyze.

(** * Vocabulary of the statements *)

(** Sequencing of two runs: the second starts in the state the first left,
    unless the first raised. *)
Definition then_run {A B} (r : run_result A) (f : A → sim_t → run_result B)
  : run_result B :=
  match returned r with
  | Ok a =>
      let r2 := f a (final r) in
      {| returned := returned r2; final := final r2;
         performed := performed r ++ performed r2 |}
  | Raises e =>
      {| returned := Raises e; final := final r; performed := performed r |}
  end.

(** The two clamps of one biphasic pulse, as they stand in the simulator
    once [apply_biphasic_pulse] has returned. *)
Definition phase1 (sec : sec_ref) (onset amp_nA duration : Q) : iclamp_t :=
  {| ic_sec := sec; ic_loc := 0.5; delay := onset; dur := duration / 2; amp := amp_nA |}.
Definition phase2 (sec : sec_ref) (onset amp_nA duration : Q) : iclamp_t :=
  {| ic_sec := sec; ic_loc := 0.5; delay := onset + duration / 2;
     dur := duration / 2; amp := - amp_nA |}.

Definition with_clamps (s : sim_t) (cs : list iclamp_t) : sim_t :=
  {| Tms.net_cells := Tms.net_cells s; point_processes := point_processes s ++ cs |}.

(** The clamps one cell receives: per pulse index, phase 1 then phase 2. *)
Definition cell_clamps (target_pop : string) (p : tms_params_t) (pulse_interval : Q)
    (sec : sec_ref) (idxs : list Z) : list iclamp_t :=
  let amp_nA := convert_field_to_current (ef_amp_V_per_m p) target_pop "soma" in
  idx ← idxs;
  let onset := stim_start_ms p + inject_Z idx * pulse_interval in
  [phase1 sec onset amp_nA (width_ms p); phase2 sec onset amp_nA (width_ms p)].

(** The clamps the whole roster receives: the targeted cells in roster
    order, each at the section [find_soma] picks. *)
Definition network_clamps (target_pop : string) (p : tms_params_t) (pulse_interval : Q)
    (cells : list cell_t) : list iclamp_t :=
  cell ← filter (in_pop target_pop) cells;
  match find_soma cell with
  | Ok sec => cell_clamps target_pop p pulse_interval sec (range (n_pulses_apply p))
  | Raises _ => []
  end.

(** Clamps laid out pulse by pulse: for each (section, onset), phase 1 then
    phase 2. *)
Definition pulse_pairs (amp_nA width : Q) (ps : list (sec_ref * Q)) : list iclamp_t :=
  so ← ps; [phase1 so.1 so.2 amp_nA width; phase2 so.1 so.2 amp_nA width].

(** Every cell of the target population declares at least one section. *)
Definition sections_declared (target_pop : string) (cells : list cell_t) : Prop :=
  Forall (λ cell, in_pop target_pop cell → secs cell ≠ []) cells.

(** The six entries of [geometry], keyed by (cell type, compartment). *)
Definition flat_table : gmap (string * string) Q :=
  {[ ("HL23PYR", "soma") := 0.025; ("HL23PYR", "apical") := 0.05;
     ("HL23PYR", "basal") := 0.03; ("HL23PV", "soma") := 0.015;
     ("HL23SST", "soma") := 0.015; ("HL23VIP", "soma") := 0.015 ]}.

(** The fallback as the specification words it: table entry, else a default
    of the cell type, else a global default. *)
Definition three_tier_factor (type_default : string → Q) (global_default : Q)
    (cell_type compartment : string) : Q :=
  match geometry !! cell_type with
  | Some row =>
      match row !! compartment with
      | Some f => f
      | None => type_default cell_type
      end
  | None => global_default
  end.

Ltac table_miss :=
  repeat first [ rewrite lookup_insert_ne by congruence
               | rewrite lookup_singleton_ne by congruence ];
  try reflexivity.

(** The source a resolver draws from, read off its branches. *)
Inductive tier : Set := CountTable | PopsEntry | Roster | NoSource.

(** [get_population_cell_count]: table, then the [net.pops] entry, then the
    roster. *)
Definition count_tier (self : analyzer) (pop_name : string) : tier :=
  match config_cellNumber self with
  | Some _ => CountTable
  | None =>
      match default ∅ (net_pops self) !! pop_name with
      | Some _ => PopsEntry
      | None =>
          match Analyze.net_cells self with
          | Some _ => Roster
          | None => NoSource
          end
      end
  end.

(** [get_population_gids]: roster, then the table. *)
Definition gids_tier (self : analyzer) : tier :=
  match Analyze.net_cells self with
  | Some _ => Roster
  | None =>
      match config_cellNumber self with
      | Some _ => CountTable
      | None => NoSource
      end
  end.

(** The rational a finite binary64 value denotes, and agreement of a
    binary64 value with a rational.  Used only to replay, in binary64, the
    arithmetic of the concrete inputs discussed below. *)
Definition binary64_value (f : PrimFloat.float) : option Q :=
  match FloatOps.Prim2SF f with
  | SpecFloat.S754_zero _ => Some 0
  | SpecFloat.S754_finite s m e =>
      Some ((if s then -1 else 1) * inject_Z (Z.pos m) * Qpower 2 e)
  | _ => None
  end.

Definition agrees (f : PrimFloat.float) (q : Q) : Prop :=
  match binary64_value f with
  | Some v => v == q
  | None => False
  end.

(** Sum of a list of rationals. *)
Definition Qsum (l : list Q) : Q := foldr Qplus 0 l.

(** Charge a clamp injects: amplitude times duration. *)
Definition charge (c : iclamp_t) : Q := amp c * dur c.

(** The cells the roster loop gets through: everything before the first
    targeted cell that declares no section. *)
Fixpoint stimulated_prefix (target_pop : string) (cells : list cell_t) : list cell_t :=
  match cells with
  | [] => []
  | cell :: rest =>
      if in_pop target_pop cell && bool_decide (secs cell = [])
      then []
      else cell :: stimulated_prefix target_pop rest
  end.

(** Whether every targeted cell of the roster declares a section. *)
Definition all_sections_declared (target_pop : string) (cells : list cell_t) : bool :=
  forallb (λ cell, negb (in_pop target_pop cell && bool_decide (secs cell = []))) cells.

(** Sum of a list of integers. *)
Definition Zsum (l : list Z) : Z := foldr Z.add 0%Z l.

(** Length of the rate array, whichever way it was produced. *)
Definition rates_length (r : rates_t) : nat :=
  match r with
  | Rates l => length l
  | PerGid scaled _ => length scaled
  end.

(** ** The [cfg.tms] dictionary: written by [test_rtms_lfp_quick.py], read
       by the analyzer *)

Module LegacyTms.
Import Tms.

(** The keys of [cfg.tms] / [simConfig['tms']] that the analyzer reads;
    absent keys are [None]. *)
Record tms_dict : Type := {
  enabled : option bool;
  onset : option Q;
  protocol : option string;
  n_pulses : option Z;
  frequency : option Q
}.

(** [test_rtms_lfp_quick.py], lines 63-71: the assignments into the existing
    [cfg.tms], as far as they set keys the analyzer reads. *)
Definition quick_test_assignments (old : tms_dict) (p : tms_params_t) : tms_dict :=
  let d1 := {| enabled := Some true; onset := onset old; protocol := protocol old;
               n_pulses := n_pulses old; frequency := frequency old |} in
  let d2 := {| enabled := enabled d1; onset := onset d1; protocol := Some "repetitive";
               n_pulses := n_pulses d1; frequency := frequency d1 |} in
  let d3 := {| enabled := enabled d2; onset := onset d2; protocol := protocol d2;
               n_pulses := n_pulses d2; frequency := Some (freq_Hz p) |} in
  let d4 := {| enabled := enabled d3; onset := onset d3; protocol := protocol d3;
               n_pulses := Some (QuickTest._n_pulses p); frequency := frequency d3 |} in
  {| enabled := enabled d4; onset := Some (stim_start_ms p); protocol := protocol d4;
     n_pulses := n_pulses d4; frequency := frequency d4 |}.

(** [RTMSLFPAnalyzer.get_tms_pulse_times()], as a function of [self.config]
    restricted to its ['tms'] entry: outer [None] is [self.config is None],
    inner [None] is a config without the key. *)
Definition get_tms_pulse_times (config : option (option tms_dict)) : outcome (list Q) :=
  match config with
  | None => Ok []
  | Some entry =>
      let tms_cfg := default {| enabled := None; onset := None; protocol := None;
                                n_pulses := None; frequency := None |} entry in
      if negb (default false (enabled tms_cfg)) then Ok []
      else
        let onset := default 500 (onset tms_cfg) in
        let protocol := default "single" (protocol tms_cfg) in
        if bool_decide (protocol = "repetitive") then
          let n_pulses := default 10%Z (n_pulses tms_cfg) in
          let frequency := default 10 (frequency tms_cfg) in
          interval ← py_div 1000 frequency;
          Ok ((λ i, onset + inject_Z i * interval) <$> range n_pulses)
        else Ok [onset]
  end.

End LegacyTms.

(** ** [analyze_rtms_lfp.py]: the LFP window of [compute_lfp_spectrum] *)

(** [l[a:b]] on a sequence, with Python's treatment of negative and
    out-of-range bounds. *)
Definition py_slice {A} (l : list A) (a b : Z) : list A :=
  let len := Z.of_nat (length l) in
  let clamp := λ i : Z, if (i <? 0)%Z then Z.max 0 (i + len) else Z.min i len in
  let lo := clamp a in
  let hi := clamp b in
  take (Z.to_nat (hi - lo)) (drop (Z.to_nat lo) l).

Module Lfp.

(** Failures of this method: those of [exn], and [AttributeError] from
    [self.config.get] when there is no config. *)
Inductive result (A : Type) : Type :=
| Done (a : A)
| Fails (e : exn)
| FailsAttributeError.
Arguments Done {A} a.
Arguments Fails {A} e.
Arguments FailsAttributeError {A}.

(** [self.lfp]: the sample matrix, one row per time step, rectangular as
    [np.array] makes it; [None] when the record has no LFP. *)
Definition lfp_t := option (list (list Q)).

(** [self.config], restricted to [LFP_dt]. *)
Record lfp_config : Type := { LFP_dt : option Q }.

(** [self.lfp[:, electrode_idx]] on a two-dimensional array with
    [n] columns: valid for [-n <= electrode_idx < n].  An array built from
    no rows is one-dimensional and cannot be indexed this way. *)
Definition column (lfp : list (list Q)) (electrode_idx : Z) : result (list Q) :=
  match lfp with
  | [] => Fails IndexError
  | row0 :: _ =>
      let n := Z.of_nat (length row0) in
      if ((- n <=? electrode_idx) && (electrode_idx <? n))%Z then
        let j := Z.to_nat (if (electrode_idx <? 0)%Z then electrode_idx + n
                           else electrode_idx) in
        Done ((λ row, nth j row 0) <$> lfp)
      else Fails IndexError
  end.

Section Spectrum.
(** [scipy.signal.welch(trace, fs=fs, nperseg=nperseg, scaling='density')],
    which this repository does not define. *)
Variable welch : list Q → Q → Z → list Q * list Q.

(** [compute_lfp_spectrum(electrode_idx, time_window, nperseg)] *)
Definition compute_lfp_spectrum (lfp : lfp_t) (config : option lfp_config)
    (electrode_idx : Z) (time_window : option (Q * Q)) (nperseg : Z)
  : result (list Q * list Q) :=
  match lfp with
  | None => Done ([], [])
  | Some samples =>
      match config with
      | None => FailsAttributeError
      | Some c =>
          let lfp_dt := default 0.1 (LFP_dt c) in
          if Qeq_bool lfp_dt 0 then Fails ZeroDivisionError
          else
            let fs := 1000 / lfp_dt in
            match column samples electrode_idx with
            | Done lfp_trace =>
                let lfp_trace :=
                  match time_window with
                  | Some (t_start, t_end) =>
                      let idx_start := py_int (t_start / lfp_dt) in
                      let idx_end := py_int (t_end / lfp_dt) in
                      py_slice lfp_trace idx_start idx_end
                  | None => lfp_trace
                  end in
                Done (welch lfp_trace fs nperseg)
            | Fails e => Fails e
            | FailsAttributeError => FailsAttributeError
            end
      end
  end.

End Spectrum.

End Lfp.

(** ** [cellwrapper.py] *)

Module CellWrapper.

(** A segment: the conductance ([gbar], or [g] for [pas]) of each mechanism
    inserted in it.  [hasattr(seg, name)] is membership. *)
Abbreviation segment := (gmap string Q).

(** A cell as the function walks it: [cell.all], each section a sequence of
    segments. *)
Abbreviation cell := (list (list (gmap string Q))).

(** [if hasattr(seg, name): seg.<name>.gbar *= k] *)
Definition scale (name : string) (k : Q) (seg : segment) : segment :=
  alter (λ g, g * k) name seg.

(** The loop bodies of the three stages, statement by statement. *)
Definition stage1 (seg : segment) : segment :=
  let seg := scale "NaTg" 1.25 seg in
  let seg := scale "Nap" 1.30 seg in
  let seg := scale "Kv3_1" 0.65 seg in
  let seg := scale "SK" 0.55 seg in
  let seg := scale "K_T" 0.70 seg in
  scale "Ih" 0.65 seg.

Definition stage2 (seg : segment) : segment :=
  let seg := scale "NaTg" 1.10 seg in
  let seg := scale "Nap" 1.05 seg in
  let seg := scale "Kv3_1" 0.45 seg in
  let seg := scale "SK" 0.35 seg in
  let seg := scale "K_T" 0.50 seg in
  let seg := scale "Ih" 0.45 seg in
  scale "pas" 1.15 seg.

Definition stage3 (seg : segment) : segment :=
  let seg := scale "NaTg" 1.20 seg in
  let seg := scale "Nap" 1.60 seg in
  let seg := scale "Kv3_1" 0.30 seg in
  let seg := scale "SK" 0.25 seg in
  let seg := scale "K_T" 0.40 seg in
  let seg := scale "Ih" 0.30 seg in
  scale "pas" 1.20 seg.

(** [apply_AD_changes_to_HL23PYR(cell, ad_stage)]: the cell after the
    in-place changes. *)
Definition apply_AD_changes_to_HL23PYR (c : cell) (ad_stage : Z) : cell :=
  if (ad_stage =? 1)%Z then map (map stage1) c
  else if (ad_stage =? 2)%Z then map (map stage2) c
  else if (ad_stage =? 3)%Z then map (map stage3) c
  else c.

(** [loadCell_HL23PYR(cellName, ad, ad_stage)], from the cell that the
    template and the healthy biophysics produce. *)
Definition loadCell_HL23PYR (baseline : cell) (ad : bool) (ad_stage : option Z) : cell :=
  if ad then
    let stage := default 1%Z ad_stage in
    apply_AD_changes_to_HL23PYR baseline stage
  else baseline.

End CellWrapper.

(** ** [netParams.py]: the section lists *)

Module NetParams.

(** [pat in s] on strings. *)
Definition contains (pat s : string) : bool :=
  match String.index 0 pat s with
  | Some _ => true
  | None => false
  end.

(** Lines 129-142, from [all_secs]. *)
Definition nonSpiny (all_secs : list string) : list string :=
  filter (λ sec, contains "soma" sec || contains "axon" sec || contains "myelin" sec)
         all_secs.

Definition spiny (all_secs : list string) : list string :=
  filter (λ sec, sec ∉ nonSpiny all_secs) all_secs.

Definition basal (all_secs : list string) : list string :=
  filter (λ sec, contains "dend" sec) all_secs.

Definition apical (all_secs : list string) : list string :=
  filter (λ sec, contains "apic" sec) all_secs.

End NetParams.

(** The factor each stage applies to each mechanism it names. *)
Definition ad_factor (ad_stage : Z) (mech : string) : option Q :=
  if (ad_stage =? 1)%Z then
    ({[ "NaTg" := 1.25; "Nap" := 1.30; "Kv3_1" := 0.65; "SK" := 0.55;
       "K_T" := 0.70; "Ih" := 0.65 ]} : gmap string Q) !! mech
  else if (ad_stage =? 2)%Z then
    ({[ "NaTg" := 1.10; "Nap" := 1.05; "Kv3_1" := 0.45; "SK" := 0.35;
       "K_T" := 0.50; "Ih" := 0.45; "pas" := 1.15 ]} : gmap string Q) !! mech
  else if (ad_stage =? 3)%Z then
    ({[ "NaTg" := 1.20; "Nap" := 1.60; "Kv3_1" := 0.30; "SK" := 0.25;
       "K_T" := 0.40; "Ih" := 0.30; "pas" := 1.20 ]} : gmap string Q) !! mech
  else None.

(** The conductance of mechanism [mech] in segment [j] of section [i]. *)
Definition conductance (c : list (list (gmap string Q))) (i j : nat) (mech : string)
  : option Q :=
  sec ← c !! i; seg ← sec !! j; seg !! mech.

(** A conductance after an optional factor. *)
Definition scaled_by (factor : option Q) (g : option Q) : option Q :=
  from_option (λ k, (λ x, x * k) <$> g) g factor.

(** * Properties *)

(** ** Arithmetic of [int], [range] *)

Lemma py_int_floor (x : Q) : 0 <= x → py_int x = Qfloor x.
Proof.
  destruct x as [n d]. unfold Qle, py_int, Qfloor. simpl. intros H.
  apply Z.quot_div_nonneg; lia.
Qed.

Lemma py_int_nonpos (x : Q) : x <= 0 → (py_int x <= 0)%Z.
Proof.
  destruct x as [n d]. unfold Qle, py_int. simpl. intros H.
  assert (Hn : (n = - (- n))%Z) by lia. rewrite Hn, Z.quot_opp_l by lia.
  assert (0 <= (- n) ÷ Z.pos d)%Z by (apply Z.quot_pos; lia). lia.
Qed.

Lemma py_int_nonneg (x : Q) : 0 <= x → (0 <= py_int x)%Z.
Proof.
  destruct x as [n d]. unfold Qle, py_int. simpl. intros H.
  apply Z.quot_pos; lia.
Qed.

Lemma range_nonpos (n : Z) : (n <= 0)%Z → range n = [].
Proof. intros H. unfold range. replace (Z.to_nat n) with 0%nat by lia. reflexivity. Qed.

Lemma length_range (n : Z) : length (range n) = Z.to_nat n.
Proof. unfold range. rewrite length_map. apply length_seq. Qed.

Lemma range_lookup (n : Z) (i : nat) :
  (i < Z.to_nat n)%nat → range n !! i = Some (Z.of_nat i).
Proof.
  intros H. unfold range. rewrite list_lookup_fmap, lookup_seq_lt by done. reflexivity.
Qed.

Lemma py_div_ok (x y : Q) : ¬ y == 0 → py_div x y = Ok (x / y).
Proof.
  intros H. unfold py_div. destruct (Qeq_bool y 0) eqn:E; [|done].
  apply Qeq_bool_iff in E. contradiction.
Qed.

Lemma py_div_zero (x y : Q) : y == 0 → py_div x y = Raises ZeroDivisionError.
Proof.
  intros H. unfold py_div. apply Qeq_bool_iff in H. by rewrite H.
Qed.

(** ** Running simulator programs *)

Lemma run_bind {A B} (m : prog A) (f : A → prog B) (s : sim_t) :
  run (bind m f) s = then_run (run m s) (λ a, run (f a)).
Proof.
  revert s. induction m as [a|e|k IH|sec x k IH|h at' v k IH]; intros s; simpl.
  - unfold then_run; simpl. by destruct (run (f a) s).
  - reflexivity.
  - rewrite IH. unfold then_run, after; simpl.
    by destruct (returned (run (k (Tms.net_cells s)) s)).
  - rewrite IH. unfold then_run, after; simpl.
    by destruct (returned (run (k _) _)).
  - rewrite IH. unfold then_run, after; simpl.
    by destruct (returned (run k _)).
Qed.

Lemma run_mbind {A B} (m : prog A) (f : A → prog B) (s : sim_t) :
  run (m ≫= f) s = then_run (run m s) (λ a, run (f a)).
Proof. apply run_bind. Qed.

Lemma returned_then_run {A B} (r : run_result A) (f : A → sim_t → run_result B) a :
  returned r = Ok a → returned (then_run r f) = returned (f a (final r)).
Proof. intros H. unfold then_run. by rewrite H. Qed.

Lemma final_then_run {A B} (r : run_result A) (f : A → sim_t → run_result B) a :
  returned r = Ok a → final (then_run r f) = final (f a (final r)).
Proof. intros H. unfold then_run. by rewrite H. Qed.

Lemma alter_snoc {A} (f : A → A) (l : list A) (x : A) :
  alter f (length l) (l ++ [x]) = l ++ [f x].
Proof. induction l as [|y l IH]; simpl; [done|]. f_equal. exact IH. Qed.

Lemma with_clamps_nil s : with_clamps s [] = s.
Proof. destruct s. unfold with_clamps; simpl. by rewrite app_nil_r. Qed.

Lemma with_clamps_app s cs1 cs2 :
  with_clamps (with_clamps s cs1) cs2 = with_clamps s (cs1 ++ cs2).
Proof. unfold with_clamps; simpl. by rewrite app_assoc. Qed.

Lemma run_apply_biphasic_pulse sec onset amp_nA duration s :
  let n := length (point_processes s) in
  let r := run (apply_biphasic_pulse sec onset amp_nA duration) s in
  returned r = Ok [n; S n] ∧
  final r = with_clamps s [phase1 sec onset amp_nA duration;
                           phase2 sec onset amp_nA duration] ∧
  performed r =
    [EvIClamp sec 0.5; EvSetAttr n Delay onset; EvSetAttr n Dur (duration / 2);
     EvSetAttr n Amp amp_nA;
     EvIClamp sec 0.5; EvSetAttr (S n) Delay (onset + duration / 2);
     EvSetAttr (S n) Dur (duration / 2); EvSetAttr (S n) Amp (- amp_nA)].
Proof.
  unfold apply_biphasic_pulse, new_iclamp, assign, mbind, mret, prog_bind, prog_ret.
  cbn [bind run after returned final performed Tms.net_cells point_processes].
  rewrite !alter_snoc. cbn [set_attr ic_sec ic_loc delay dur amp].
  rewrite !length_app, !Nat.add_1_r.
  unfold with_clamps, phase1, phase2. rewrite <- app_assoc. done.
Qed.

(** ** The pulse train of the applicator *)

Section PulseTrain.
Variables (target_pop : string) (p : tms_params_t) (pulse_interval : Q).

Let amp_nA := convert_field_to_current (ef_amp_V_per_m p) target_pop "soma".
Let onset (pulse_idx : Z) : Q := stim_start_ms p + inject_Z pulse_idx * pulse_interval.
Local Abbreviation train := (cell_clamps target_pop p pulse_interval).
Local Abbreviation created := (network_clamps target_pop p pulse_interval).
Local Abbreviation pulse := (pulse_body target_pop p pulse_interval).
Local Abbreviation visit := (cell_body target_pop p pulse_interval).
Local Abbreviation declared := (sections_declared target_pop).

Lemma length_cell_clamps sec idxs :
  length (train sec idxs) = (2 * length idxs)%nat.
Proof.
  unfold cell_clamps. induction idxs as [|i idxs IH]; [done|].
  cbn. cbn in IH. rewrite IH. lia.
Qed.

Lemma run_pulse_body sec clamps pulse_idx s :
  let n := length (point_processes s) in
  let r := run (pulse sec clamps pulse_idx) s in
  returned r = Ok (clamps ++ [n; S n]) ∧
  final r = with_clamps s [phase1 sec (onset pulse_idx) amp_nA (width_ms p);
                           phase2 sec (onset pulse_idx) amp_nA (width_ms p)].
Proof.
  cbn zeta. unfold pulse_body. rewrite run_mbind.
  destruct (run_apply_biphasic_pulse sec (onset pulse_idx) amp_nA (width_ms p) s)
    as (Hr & Hf & _).
  rewrite (returned_then_run _ _ _ Hr), (final_then_run _ _ _ Hr), Hf. done.
Qed.

Lemma run_pulse_loop sec idxs clamps s :
  let r := run (for_each idxs (pulse sec) clamps) s in
  returned r = Ok (clamps ++ seq (length (point_processes s)) (2 * length idxs)) ∧
  final r = with_clamps s (train sec idxs).
Proof.
  revert clamps s. induction idxs as [|i idxs IH]; intros clamps s; cbn zeta.
  - cbn. rewrite app_nil_r, with_clamps_nil. done.
  - cbn [for_each]. rewrite run_mbind.
    destruct (run_pulse_body sec clamps i s) as (Hr & Hf).
    rewrite (returned_then_run _ _ _ Hr), (final_then_run _ _ _ Hr), Hf.
    destruct (IH (clamps ++ [length (point_processes s);
                             S (length (point_processes s))])
                 (with_clamps s [phase1 sec (onset i) amp_nA (width_ms p);
                                 phase2 sec (onset i) amp_nA (width_ms p)]))
      as (IHr & IHf).
    rewrite IHr, IHf. split.
    + f_equal. rewrite <- app_assoc. f_equal. cbn [point_processes with_clamps].
      rewrite length_app. cbn [length].
      replace (2 * S (length idxs))%nat with (S (S (2 * length idxs))) by lia.
      cbn [seq app]. do 3 f_equal. lia.
    + by rewrite with_clamps_app.
Qed.

Lemma find_soma_ok cell : secs cell ≠ [] → ∃ sec, find_soma cell = Ok sec.
Proof.
  intros H. unfold find_soma.
  destruct (secs_get "soma_0" (secs cell)); [eauto|].
  destruct (secs_get "soma" (secs cell)); [eauto|].
  destruct (secs cell) as [|[name s] rest]; [done|eauto].
Qed.

Lemma find_soma_raises cell : secs cell = [] → find_soma cell = Raises IndexError.
Proof. intros H. unfold find_soma. by rewrite H. Qed.

Lemma run_cell_body_in cell sec clamps s :
  in_pop target_pop cell = true → find_soma cell = Ok sec →
  run (visit clamps cell) s
  = run (for_each (range (n_pulses_apply p)) (pulse sec) clamps) s.
Proof.
  intros Hin Hsec. unfold cell_body. rewrite Hin, run_mbind, Hsec.
  cbn [lift run]. unfold then_run. cbn [returned final performed].
  by destruct (run _ s).
Qed.

Lemma run_cell_loop cells clamps s :
  declared cells →
  let r := run (for_each cells visit clamps) s in
  returned r = Ok (clamps ++ seq (length (point_processes s))
                                 (length (created cells))) ∧
  final r = with_clamps s (created cells).
Proof.
  revert clamps s. induction cells as [|cell cells IH]; intros clamps s Hwf; cbn zeta.
  - cbn. rewrite app_nil_r, with_clamps_nil. done.
  - apply Forall_cons in Hwf as [Hc Hwf].
    cbn [for_each]. rewrite run_mbind. unfold network_clamps.
    rewrite filter_cons. destruct (in_pop target_pop cell) eqn:Hin.
    + destruct (find_soma_ok cell) as [sec Hsec]; [by apply Hc|].
      rewrite decide_True by done. cbn [mbind list_bind]. rewrite Hsec.
      rewrite (run_cell_body_in cell sec) by done.
      destruct (run_pulse_loop sec (range (n_pulses_apply p)) clamps s) as (Hr & Hf).
      rewrite (returned_then_run _ _ _ Hr), (final_then_run _ _ _ Hr), Hf.
      destruct (IH (clamps ++ seq (length (point_processes s))
                                  (2 * length (range (n_pulses_apply p))))
                   (with_clamps s (train sec (range (n_pulses_apply p)))) Hwf)
        as (IHr & IHf).
      rewrite IHr, IHf. split.
      * f_equal. rewrite <- app_assoc. f_equal. cbn [point_processes with_clamps].
        rewrite !length_app, length_cell_clamps, seq_app. done.
      * by rewrite with_clamps_app.
    + rewrite decide_False by (by intros []).
      unfold cell_body at 1 3. rewrite Hin. cbn [run mret prog_ret]. unfold then_run.
      cbn [returned final performed]. by destruct (IH clamps s Hwf) as (-> & ->).
Qed.

Lemma length_network_clamps cells :
  declared cells →
  length (created cells)
  = (2 * Z.to_nat (n_pulses_apply p) * length (filter (in_pop target_pop) cells))%nat.
Proof.
  unfold network_clamps. induction cells as [|cell cells IH]; intros Hwf; [cbn; lia|].
  apply Forall_cons in Hwf as [Hc Hwf]. rewrite filter_cons.
  destruct (in_pop target_pop cell) eqn:Hin.
  - rewrite decide_True by done. cbn [mbind list_bind length].
    destruct (find_soma_ok cell) as [sec ->]; [by apply Hc|].
    rewrite length_app, length_cell_clamps, length_range.
    cbn [mbind] in IH. rewrite IH by done. cbn [length]. lia.
  - rewrite decide_False by (by intros []). by apply IH.
Qed.

End PulseTrain.

Lemma run_apply_tms_from_params p target_pop s :
  ¬ freq_Hz p == 0 →
  sections_declared target_pop (Tms.net_cells s) →
  let created := network_clamps target_pop p (1000 / freq_Hz p) (Tms.net_cells s) in
  let r := run (apply_tms_from_params {| tms_params := Some p |} target_pop) s in
  returned r = Ok (seq (length (point_processes s)) (length created)) ∧
  final r = with_clamps s created.
Proof.
  intros Hf Hwf. cbn zeta. unfold apply_tms_from_params. cbn [tms_params].
  rewrite run_mbind, py_div_ok by done. cbn [lift run]. unfold then_run at 1.
  cbn [returned final performed]. unfold net_cells_op, mbind, prog_bind.
  cbn [bind run after returned final performed].
  exact (run_cell_loop target_pop p (1000 / freq_Hz p) (Tms.net_cells s) [] s Hwf).
Qed.

Lemma run_apply_tms_zero_freq p target_pop s :
  freq_Hz p == 0 →
  run (apply_tms_from_params {| tms_params := Some p |} target_pop) s
  = {| returned := Raises ZeroDivisionError; final := s; performed := [] |}.
Proof.
  intros Hf. unfold apply_tms_from_params. cbn [tms_params].
  rewrite run_mbind, py_div_zero by done. reflexivity.
Qed.

(** ** Pulse scheduling *)

Lemma pulse_product_nonneg (p : tms_params_t) :
  0 < freq_Hz p → stim_start_ms p < stim_end_ms p →
  0 <= (stim_end_ms p - stim_start_ms p) * freq_Hz p / 1000.
Proof.
  intros Hf Hw. apply Qle_shift_div_l; [reflexivity|]. rewrite Qmult_0_l.
  apply Qmult_le_0_compat; lra.
Qed.

Lemma interval_pos (f : Q) : 0 < f → 0 < 1000 / f.
Proof. intros H. apply Qlt_shift_div_l; [done|]. lra. Qed.

Lemma Qpos_nonzero (f : Q) : 0 < f → ¬ f == 0.
Proof. intros H E. rewrite E in H. by apply Qlt_irrefl in H. Qed.

Lemma Qneg_nonzero (f : Q) : f < 0 → ¬ f == 0.
Proof. intros H E. rewrite E in H. by apply Qlt_irrefl in H. Qed.

Lemma get_tms_pulse_times_ok (p : tms_params_t) :
  ¬ freq_Hz p == 0 →
  get_tms_pulse_times {| tms_params := Some p |}
  = Ok ((λ i, stim_start_ms p + inject_Z i * (1000 / freq_Hz p)) <$> range (n_pulses_helper p)).
Proof.
  intros H. unfold get_tms_pulse_times. cbn [tms_params].
  rewrite py_div_ok by done. reflexivity.
Qed.



(** The scenario of the specification: 10 Hz over [500, 1500] ms gives ten
    onsets 500, 600, ..., 1400. *)
Example ten_hertz_onsets :
  ∃ onsets,
    get_tms_pulse_times
      {| tms_params := Some {| ef_amp_V_per_m := 40; freq_Hz := 10; stim_start_ms := 500;
                               stim_end_ms := 1500; width_ms := 1 |} |} = Ok onsets ∧
    Forall2 Qeq onsets [500; 600; 700; 800; 900; 1000; 1100; 1200; 1300; 1400].
Proof. eexists. split; [reflexivity|]. repeat constructor. Qed.

(** ** Degenerate windows and frequencies *)

(** C2, as the code has it.  With a non-zero frequency whose sign opposes a
    non-empty window direction (positive frequency and [windowEnd <=
    windowStart], or negative frequency and [windowEnd >= windowStart]) the
    pulse-time helper returns the empty sequence without raising, the
    interval division succeeds, and the applicator's pulse loop runs no
    iteration: on a roster whose targeted cells declare a section the
    applicator returns no handle and leaves the simulator as it was. *)
Theorem degenerate_schedule_is_empty (p : tms_params_t) :
  (0 < freq_Hz p ∧ stim_end_ms p <= stim_start_ms p) ∨
  (freq_Hz p < 0 ∧ stim_start_ms p <= stim_end_ms p) →
  get_tms_pulse_times {| tms_params := Some p |} = Ok [] ∧
  py_div 1000 (freq_Hz p) = Ok (1000 / freq_Hz p) ∧
  (∀ (body : list handle → Z → prog (list handle)) clamps,
      for_each (range (n_pulses_apply p)) body clamps = Ret clamps) ∧
  (∀ target_pop s, sections_declared target_pop (Tms.net_cells s) →
      let r := run (apply_tms_from_params {| tms_params := Some p |} target_pop) s in
      returned r = Ok [] ∧ final r = s).
Proof.
  intros H.
  assert (Hnz : ¬ freq_Hz p == 0).
  { destruct H as [[H _]|[H _]]; [by apply Qpos_nonzero|by apply Qneg_nonzero]. }
  assert (Hn : (n_pulses_apply p <= 0)%Z).
  { apply py_int_nonpos. apply Qle_shift_div_r; [reflexivity|]. rewrite Qmult_0_l.
    destruct H as [[Hf Hw]|[Hf Hw]].
    - rewrite Qmult_comm. rewrite <- (Qmult_0_r (freq_Hz p)).
      apply Qmult_le_l; [done|lra].
    - assert (E : (stim_end_ms p - stim_start_ms p) * freq_Hz p
                  == - ((stim_end_ms p - stim_start_ms p) * - freq_Hz p)) by ring.
      assert (0 <= (stim_end_ms p - stim_start_ms p) * - freq_Hz p)
        by (apply Qmult_le_0_compat; lra).
      rewrite E. lra. }
  assert (Hr : range (n_pulses_apply p) = []) by (by apply range_nonpos).
  split; [|split; [|split]].
  - rewrite get_tms_pulse_times_ok by done.
    change (n_pulses_helper p) with (n_pulses_apply p). by rewrite Hr.
  - by apply py_div_ok.
  - intros body clamps. by rewrite Hr.
  - intros target_pop s Hwf.
    destruct (run_apply_tms_from_params p target_pop s Hnz Hwf) as (Hret & Hfin).
    assert (Hlen : length (network_clamps target_pop p (1000 / freq_Hz p)
                            (Tms.net_cells s)) = 0%nat).
    { rewrite length_network_clamps by done. lia. }
    cbn zeta. rewrite Hret, Hfin, Hlen.
    apply nil_length_inv in Hlen. rewrite Hlen, with_clamps_nil. done.
Qed.

Lemma degenerate_schedule_is_empty_witness :
  let p := {| ef_amp_V_per_m := 40; freq_Hz := 10; stim_start_ms := 1500;
              stim_end_ms := 500; width_ms := 1 |} in
  ((0 < freq_Hz p ∧ stim_end_ms p <= stim_start_ms p) ∨
   (freq_Hz p < 0 ∧ stim_start_ms p <= stim_end_ms p)) ∧
  get_tms_pulse_times {| tms_params := Some p |} = Ok [].
Proof.
  intros p.
  assert (H : (0 < freq_Hz p ∧ stim_end_ms p <= stim_start_ms p) ∨
              (freq_Hz p < 0 ∧ stim_start_ms p <= stim_end_ms p)).
  { left. split; [reflexivity|]. unfold Qle. simpl. lia. }
  split; [exact H|].
  exact (proj1 (degenerate_schedule_is_empty p H)).
Defined.

(** C2 as stated fails twice: a zero frequency makes both operations raise
    [ZeroDivisionError] (from [1000.0 / freq_Hz]), and a negative frequency
    over a reversed window schedules ten pulses. *)
Lemma degenerate_schedule_counterexample :
  let zero := {| ef_amp_V_per_m := 40; freq_Hz := 0; stim_start_ms := 500;
                 stim_end_ms := 1500; width_ms := 1 |} in
  let reversed := {| ef_amp_V_per_m := 40; freq_Hz := -10; stim_start_ms := 1500;
                     stim_end_ms := 500; width_ms := 1 |} in
  let s := {| Tms.net_cells := []; point_processes := [] |} in
  get_tms_pulse_times {| tms_params := Some zero |} = Raises ZeroDivisionError ∧
  returned (run (apply_tms_from_params {| tms_params := Some zero |} "HL23PYR") s)
    = Raises ZeroDivisionError ∧
  (freq_Hz reversed <= 0 ∧ stim_end_ms reversed <= stim_start_ms reversed) ∧
  (∃ onsets, get_tms_pulse_times {| tms_params := Some reversed |} = Ok onsets ∧
             length onsets = 10%nat) ∧
  n_pulses_apply reversed = 10%Z.
Proof.
  cbn zeta. split; [reflexivity|]. split; [reflexivity|].
  split; [split; unfold Qle; simpl; lia|].
  split; [eexists; split; reflexivity|reflexivity].
Qed.

(** ** A config without stimulation parameters *)

(** C7. When the config has no [tms_params], the applicator is the program
    that returns the empty handle list at once: it contains no simulator
    operation, so on every simulator state it performs none (the roster is
    not read), leaves the state as it was and returns [[]]. *)
Theorem no_tms_params_no_contact (cfg : cfg_t) (target_pop : string) (s : sim_t) :
  tms_params cfg = None →
  apply_tms_from_params cfg target_pop = Ret [] ∧
  run (apply_tms_from_params cfg target_pop) s
  = {| returned := Ok []; final := s; performed := [] |}.
Proof.
  intros H. unfold apply_tms_from_params. rewrite H. split; reflexivity.
Qed.

Lemma no_tms_params_no_contact_witness :
  let cell := {| Tms.tags := {[ "pop" := "HL23PYR" ]};
                 secs := [("soma_0", {| hObj := 1%positive |})] |} in
  let s := {| Tms.net_cells := [cell]; point_processes := [] |} in
  performed (run (apply_tms_from_params {| tms_params := None |} "HL23PYR") s) = [].
Proof.
  intros cell s.
  exact (f_equal performed
           (proj2 (no_tms_params_no_contact {| tms_params := None |} "HL23PYR" s eq_refl))).
Defined.

(** With parameters present the roster is read: the first operation
    performed is [sim.net.cells]. *)
Example with_tms_params_roster_is_read :
  let p := {| ef_amp_V_per_m := 40; freq_Hz := 10; stim_start_ms := 500;
              stim_end_ms := 1500; width_ms := 1 |} in
  let s := {| Tms.net_cells := []; point_processes := [] |} in
  performed (run (apply_tms_from_params {| tms_params := Some p |} "HL23PYR") s)
  = [EvNetCells].
Proof. reflexivity. Qed.

(** ** The three pulse counts *)

(** C8, as the code has it.  The applicator, the pulse-time helper and the
    quick-test script each compute [int((end - start) * freq / 1000.0)]; the
    three counts agree on every window and frequency. *)
Theorem three_pulse_counts_agree (p : tms_params_t) :
  n_pulses_apply p = n_pulses_helper p ∧
  n_pulses_helper p = QuickTest._n_pulses p.
Proof. split; reflexivity. Qed.

(** C8 as stated (some window/frequency combination separates the three
    counts) is false. *)
Lemma no_pulse_count_divergence :
  ¬ ∃ p : tms_params_t,
      n_pulses_apply p ≠ n_pulses_helper p ∨
      n_pulses_helper p ≠ QuickTest._n_pulses p ∨
      n_pulses_apply p ≠ QuickTest._n_pulses p.
Proof. intros [p [H|[H|H]]]; by apply H. Qed.

(** ** The number of handles *)

Lemma pulse_pairs_app amp_nA width ps1 ps2 :
  pulse_pairs amp_nA width (ps1 ++ ps2)
  = pulse_pairs amp_nA width ps1 ++ pulse_pairs amp_nA width ps2.
Proof. unfold pulse_pairs. apply bind_app. Qed.

Lemma pulse_pairs_lookup amp_nA width ps (k : nat) so :
  ps !! k = Some so →
  pulse_pairs amp_nA width ps !! (2 * k)%nat = Some (phase1 so.1 so.2 amp_nA width) ∧
  pulse_pairs amp_nA width ps !! S (2 * k) = Some (phase2 so.1 so.2 amp_nA width).
Proof.
  revert k. induction ps as [|so' ps IH]; intros k Hk; [done|].
  destruct k as [|k].
  - injection Hk as ->. split; reflexivity.
  - replace (2 * S k)%nat with (S (S (2 * k))) by lia.
    change (pulse_pairs amp_nA width (so' :: ps))
      with (phase1 so'.1 so'.2 amp_nA width :: phase2 so'.1 so'.2 amp_nA width
            :: pulse_pairs amp_nA width ps).
    cbn [lookup list_lookup]. by apply IH.
Qed.

Lemma length_pulse_pairs amp_nA width ps :
  length (pulse_pairs amp_nA width ps) = (2 * length ps)%nat.
Proof.
  induction ps as [|so ps IH]; [done|].
  change (pulse_pairs amp_nA width (so :: ps))
    with (phase1 so.1 so.2 amp_nA width :: phase2 so.1 so.2 amp_nA width
          :: pulse_pairs amp_nA width ps).
  cbn [length]. rewrite IH. lia.
Qed.

Lemma cell_clamps_pairs target_pop p pulse_interval sec idxs :
  cell_clamps target_pop p pulse_interval sec idxs
  = pulse_pairs (convert_field_to_current (ef_amp_V_per_m p) target_pop "soma") (width_ms p)
      ((λ idx, (sec, stim_start_ms p + inject_Z idx * pulse_interval)) <$> idxs).
Proof.
  unfold cell_clamps, pulse_pairs. cbn zeta.
  induction idxs as [|i idxs IH]; [done|].
  cbn [fmap list_fmap mbind list_bind]. cbn [mbind fmap] in IH. by rewrite IH.
Qed.

Lemma network_clamps_pairs target_pop p pulse_interval cells :
  ∃ ps, network_clamps target_pop p pulse_interval cells
        = pulse_pairs (convert_field_to_current (ef_amp_V_per_m p) target_pop "soma")
            (width_ms p) ps.
Proof.
  unfold network_clamps.
  induction (filter (in_pop target_pop) cells) as [|cell cs [ps IH]]; [by exists []|].
  cbn [mbind list_bind]. cbn [mbind] in IH. rewrite IH.
  destruct (find_soma cell) as [sec|e].
  - rewrite cell_clamps_pairs, <- pulse_pairs_app. by eexists.
  - by exists ps.
Qed.

Lemma n_pulses_clamped (p : tms_params_t) :
  0 < freq_Hz p →
  Z.to_nat (n_pulses_apply p)
  = Z.to_nat (Z.max 0 (Qfloor ((stim_end_ms p - stim_start_ms p) * freq_Hz p / 1000))).
Proof.
  intros Hf. unfold n_pulses_apply. cbn zeta.
  set (x := (stim_end_ms p - stim_start_ms p) * freq_Hz p / 1000).
  destruct (Qlt_le_dec x 0) as [Hneg|Hpos].
  - pose proof (py_int_nonpos x (Qlt_le_weak _ _ Hneg)).
    pose proof (Qfloor_resp_le x 0 (Qlt_le_weak _ _ Hneg)) as Hfl.
    change (Qfloor 0) with 0%Z in Hfl. lia.
  - rewrite py_int_floor by done. pose proof (py_int_nonneg x Hpos).
    rewrite py_int_floor in H by done. lia.
Qed.




(** ** Field-to-current conversion *)

Lemma conversion_factor_flat ct comp :
  conversion_factor ct comp = default 0.02 (flat_table !! (ct, comp)).
Proof.
  unfold conversion_factor, geometry, flat_table.
  destruct (decide (ct = "HL23PYR")) as [->|H1].
  { rewrite lookup_insert_eq. cbn [default from_option id].
    destruct (decide (comp = "soma")) as [->|C1]; [reflexivity|].
    destruct (decide (comp = "apical")) as [->|C2]; [reflexivity|].
    destruct (decide (comp = "basal")) as [->|C3]; [reflexivity|].
    table_miss. }
  rewrite (lookup_insert_ne _ "HL23PYR") by done.
  destruct (decide (ct = "HL23PV")) as [->|H2].
  { rewrite lookup_insert_eq. cbn [default from_option id].
    destruct (decide (comp = "soma")) as [->|C1]; [reflexivity|]. table_miss. }
  rewrite (lookup_insert_ne _ "HL23PV") by done.
  destruct (decide (ct = "HL23SST")) as [->|H3].
  { rewrite lookup_insert_eq. cbn [default from_option id].
    destruct (decide (comp = "soma")) as [->|C1]; [reflexivity|]. table_miss. }
  rewrite (lookup_insert_ne _ "HL23SST") by done.
  destruct (decide (ct = "HL23VIP")) as [->|H4].
  { rewrite lookup_singleton_eq. cbn [default from_option id].
    destruct (decide (comp = "soma")) as [->|C1]; [reflexivity|]. table_miss. }
  table_miss.
Qed.

(** C3, as the code has it.  The returned current is the field times a
    factor with two tiers: the table entry of (cell type, compartment) when
    there is one, and otherwise the single default 0.02, whether the cell
    type is missing from the table or only the compartment is missing for
    it.  The function is total. *)
Theorem conversion_two_tier (field_Vm : Q) (cell_type compartment : string) :
  convert_field_to_current field_Vm cell_type compartment
  = field_Vm * default 0.02 (flat_table !! (cell_type, compartment)) ∧
  (∀ row f, geometry !! cell_type = Some row → row !! compartment = Some f →
            conversion_factor cell_type compartment = f) ∧
  (∀ row, geometry !! cell_type = Some row → row !! compartment = None →
          conversion_factor cell_type compartment = 0.02) ∧
  (geometry !! cell_type = None → conversion_factor cell_type compartment = 0.02).
Proof.
  split; [|split; [|split]].
  - unfold convert_field_to_current. by rewrite conversion_factor_flat.
  - intros row f Hrow Hf. unfold conversion_factor. by rewrite Hrow; cbn; rewrite Hf.
  - intros row Hrow Hf. unfold conversion_factor. by rewrite Hrow; cbn; rewrite Hf.
  - intros Hrow. unfold conversion_factor. by rewrite Hrow.
Qed.

Lemma conversion_two_tier_witness :
  conversion_factor "HL23PV" "apical" = 0.02 ∧
  conversion_factor "HL23PYR" "apical" = 0.05 ∧
  conversion_factor "L5PYR" "soma" = 0.02.
Proof.
  split; [|split].
  - exact (proj1 (proj2 (proj2 (conversion_two_tier 1 "HL23PV" "apical")))
             {[ "soma" := 0.015 ]} eq_refl eq_refl).
  - exact (proj1 (proj2 (conversion_two_tier 1 "HL23PYR" "apical"))
             {[ "soma" := 0.025; "apical" := 0.05; "basal" := 0.03 ]} 0.05 eq_refl eq_refl).
  - exact (proj2 (proj2 (proj2 (conversion_two_tier 1 "L5PYR" "soma"))) eq_refl).
Defined.

(** C3 as stated is false: no choice of cell-type defaults that differ from
    the global default reproduces the code, because a known cell type with
    an unknown compartment gets the very factor an unknown cell type gets. *)
Lemma no_cell_type_default :
  ¬ ∃ (type_default : string → Q) (global_default : Q),
      (∀ ct, is_Some (geometry !! ct) → ¬ type_default ct == global_default) ∧
      (∀ ct comp, conversion_factor ct comp
                  == three_tier_factor type_default global_default ct comp).
Proof.
  intros (d & g & Hd & H).
  pose proof (H "HL23PV" "apical") as H1.
  pose proof (H "L5PYR" "apical") as H2.
  apply (Hd "HL23PV"); [by eexists|].
  change (0.02 == d "HL23PV") in H1. change (0.02 == g) in H2.
  by rewrite <- H1, <- H2.
Qed.

Example unknown_compartment_gets_global_default :
  convert_field_to_current 40 "HL23PV" "apical" = convert_field_to_current 40 "L5PYR" "apical".
Proof. reflexivity. Qed.

(** ** Population resolution *)

Lemma range2_from_zero (n : Z) : range2 0 n = range n.
Proof. unfold range2, range. by rewrite Z.sub_0_r. Qed.

Lemma length_range2 (a b : Z) : length (range2 a b) = Z.to_nat (b - a).
Proof. unfold range2. by rewrite length_fmap, length_seq. Qed.

Lemma range2_app (a b c : Z) :
  (a <= b)%Z → (b <= c)%Z → range2 a b ++ range2 b c = range2 a c.
Proof.
  intros Hab Hbc. unfold range2.
  replace (Z.to_nat (c - a)) with (Z.to_nat (b - a) + Z.to_nat (c - b))%nat by lia.
  rewrite seq_app, fmap_app. f_equal. cbn [plus].
  replace (seq (Z.to_nat (b - a)) (Z.to_nat (c - b)))
    with (Nat.add (Z.to_nat (b - a)) <$> seq 0 (Z.to_nat (c - b)))
    by (rewrite fmap_add_seq; f_equal; lia).
  rewrite <- list_fmap_compose.
  apply list_fmap_ext. intros _ i _. cbn. lia.
Qed.

Lemma NoDup_range (n : Z) : NoDup (range n).
Proof.
  unfold range. apply NoDup_fmap_2; [apply Nat2Z.inj'|apply NoDup_seq].
Qed.

Lemma length_gid_ranges tbl pop order start :
  pop ∈ order →
  length (gid_ranges tbl pop order start) = Z.to_nat (default 0%Z (tbl !! pop)).
Proof.
  revert start. induction order as [|o order IH]; intros start Hin.
  - by apply elem_of_nil in Hin.
  - cbn [gid_ranges]. destruct (decide (o = pop)) as [->|Hne].
    + rewrite length_range2. f_equal. lia.
    + apply elem_of_cons in Hin as [->|Hin]; [done|]. by apply IH.
Qed.

Lemma gid_ranges_outside tbl pop order start :
  pop ∉ order → gid_ranges tbl pop order start = [].
Proof.
  revert start. induction order as [|o order IH]; intros start Hin; [done|].
  apply not_elem_of_cons in Hin as [Hne Hin]. cbn [gid_ranges].
  rewrite decide_False by done. by apply IH.
Qed.

Lemma get_population_gids_table (self : analyzer) tbl pop :
  Analyze.net_cells self = None → config_cellNumber self = Some tbl →
  get_population_gids self pop = gid_ranges tbl pop pop_order 0.
Proof. intros H1 H2. unfold get_population_gids. by rewrite H1, H2. Qed.

(** C10. When ids come from the cell-count table (no roster in the record)
    and the four counts are non-negative, each of HL23PYR, HL23PV, HL23SST,
    HL23VIP gets the contiguous range that starts where the previous one
    ends, the first at 0; the four ranges in that order concatenate to
    [0, total), total being the sum of the four counts, without repetition
    (so they are pairwise disjoint); any other population name resolves to
    the empty list. *)
Theorem table_gids_partition (self : analyzer) (tbl : gmap string Z) :
  Analyze.net_cells self = None →
  config_cellNumber self = Some tbl →
  (∀ pop, pop ∈ pop_order → (0 <= default 0 (tbl !! pop))%Z) →
  let count := λ pop, default 0%Z (tbl !! pop) in
  let pyr := count "HL23PYR" in
  let pv := count "HL23PV" in
  let sst := count "HL23SST" in
  let vip := count "HL23VIP" in
  let gids := get_population_gids self in
  gids "HL23PYR" = range2 0 pyr ∧
  gids "HL23PV" = range2 pyr (pyr + pv) ∧
  gids "HL23SST" = range2 (pyr + pv) (pyr + pv + sst) ∧
  gids "HL23VIP" = range2 (pyr + pv + sst) (pyr + pv + sst + vip) ∧
  gids "HL23PYR" ++ gids "HL23PV" ++ gids "HL23SST" ++ gids "HL23VIP"
    = range (pyr + pv + sst + vip) ∧
  NoDup (gids "HL23PYR" ++ gids "HL23PV" ++ gids "HL23SST" ++ gids "HL23VIP") ∧
  (∀ pop, pop ∉ pop_order → gids pop = []).
Proof.
  intros Hnet Hcfg Hpos count pyr pv sst vip gids.
  assert (H1 : (0 <= pyr)%Z) by (apply Hpos; set_solver).
  assert (H2 : (0 <= pv)%Z) by (apply Hpos; set_solver).
  assert (H3 : (0 <= sst)%Z) by (apply Hpos; set_solver).
  assert (H4 : (0 <= vip)%Z) by (apply Hpos; set_solver).
  assert (E1 : gids "HL23PYR" = range2 0 pyr).
  { unfold gids. rewrite (get_population_gids_table self tbl) by done. reflexivity. }
  assert (E2 : gids "HL23PV" = range2 pyr (pyr + pv)).
  { unfold gids. rewrite (get_population_gids_table self tbl) by done. reflexivity. }
  assert (E3 : gids "HL23SST" = range2 (pyr + pv) (pyr + pv + sst)).
  { unfold gids. rewrite (get_population_gids_table self tbl) by done. reflexivity. }
  assert (E4 : gids "HL23VIP" = range2 (pyr + pv + sst) (pyr + pv + sst + vip)).
  { unfold gids. rewrite (get_population_gids_table self tbl) by done. reflexivity. }
  assert (E : gids "HL23PYR" ++ gids "HL23PV" ++ gids "HL23SST" ++ gids "HL23VIP"
              = range (pyr + pv + sst + vip)).
  { rewrite E1, E2, E3, E4, !range2_app, range2_from_zero by lia. reflexivity. }
  repeat split; try done.
  - rewrite E. apply NoDup_range.
  - intros pop Hout. unfold gids.
    rewrite (get_population_gids_table self tbl) by done.
    by apply gid_ranges_outside.
Qed.

Lemma table_gids_partition_witness :
  let tbl : gmap string Z :=
    {[ "HL23PYR" := 80%Z; "HL23SST" := 8%Z; "HL23PV" := 6%Z; "HL23VIP" := 6%Z ]} in
  let d := {| simData := None;
              simConfig := Some {| duration := Some 2000; cellNumber := Some tbl |};
              net := None |} in
  let self := {| data := d; spikes_times := []; spikes_ids := [];
                 config := simConfig d; self_duration := 2000 |} in
  load_data d = Ok self ∧
  get_population_gids self "HL23SST" = range2 86 94.
Proof.
  intros tbl d self. split; [reflexivity|].
  assert (Hpos : ∀ pop, pop ∈ pop_order → (0 <= default 0 (tbl !! pop))%Z).
  { intros pop Hin. unfold pop_order in Hin.
    repeat (apply elem_of_cons in Hin as [->|Hin]; [vm_compute; discriminate|]).
    by apply elem_of_nil in Hin. }
  exact (proj1 (proj2 (proj2 (table_gids_partition self tbl eq_refl eq_refl Hpos)))).
Defined.

(** C4, as the code has it.  The two resolvers use different ladders: the
    count comes from the cell-count table, else from the population's
    [net.pops] entry (its [cellGids] value), else from counting roster
    entries by tag, else is 0; the ids come from the roster, else from the
    table as contiguous ranges, else are empty.  When both draw from the
    same source, the count is the number of ids, provided that in the table
    case the population is one of the four ordered names and its count is
    not negative. *)
Theorem resolver_ladders (self : analyzer) (pop_name : string) :
  (∀ tbl, config_cellNumber self = Some tbl →
     get_population_cell_count self pop_name = PInt (default 0%Z (tbl !! pop_name))) ∧
  (∀ pop, config_cellNumber self = None →
     default ∅ (net_pops self) !! pop_name = Some pop →
     get_population_cell_count self pop_name = default (PInt 0) (cellGids pop)) ∧
  (∀ cs, config_cellNumber self = None →
     default ∅ (net_pops self) !! pop_name = None →
     Analyze.net_cells self = Some cs →
     get_population_cell_count self pop_name
     = PInt (Z.of_nat (length (filter (has_pop pop_name) cs)))) ∧
  (count_tier self pop_name = NoSource →
     get_population_cell_count self pop_name = PInt 0) ∧
  (∀ cs, Analyze.net_cells self = Some cs →
     get_population_gids self pop_name = gid <$> filter (has_pop pop_name) cs) ∧
  (∀ tbl, Analyze.net_cells self = None → config_cellNumber self = Some tbl →
     get_population_gids self pop_name = gid_ranges tbl pop_name pop_order 0) ∧
  (gids_tier self = NoSource → get_population_gids self pop_name = []) ∧
  (count_tier self pop_name = gids_tier self →
   (∀ tbl, config_cellNumber self = Some tbl →
      pop_name ∈ pop_order ∧ (0 <= default 0 (tbl !! pop_name))%Z) →
   get_population_cell_count self pop_name
   = PInt (Z.of_nat (length (get_population_gids self pop_name)))).
Proof.
  unfold count_tier, gids_tier, get_population_cell_count, get_population_gids.
  repeat split.
  - by intros tbl ->.
  - by intros pop -> ->.
  - by intros cs -> -> ->.
  - destruct (config_cellNumber self); [done|].
    destruct (default ∅ (net_pops self) !! pop_name); [done|].
    by destruct (Analyze.net_cells self).
  - by intros cs ->.
  - by intros tbl -> ->.
  - destruct (Analyze.net_cells self); [done|].
    by destruct (config_cellNumber self).
  - intros Hsame Htbl.
    destruct (config_cellNumber self) as [tbl|].
    + destruct (Analyze.net_cells self); [done|].
      destruct (Htbl tbl eq_refl) as [Hin Hpos].
      rewrite length_gid_ranges by done. f_equal. lia.
    + destruct (default ∅ (net_pops self) !! pop_name).
      { by destruct (Analyze.net_cells self). }
      destruct (Analyze.net_cells self) as [cs|]; [|done].
      by rewrite length_fmap.
Qed.

Lemma resolver_ladders_witness :
  let cell g pop := {| gid := g; Analyze.tags := Some {[ "pop" := pop ]} |} in
  let d := {| simData := None; simConfig := None;
              net := Some {| pops := None;
                             cells := Some [cell 0%Z "HL23PYR"; cell 1%Z "HL23PV";
                                            cell 2%Z "HL23PYR"] |} |} in
  let self := {| data := d; spikes_times := []; spikes_ids := [];
                 config := None; self_duration := 2000 |} in
  load_data d = Ok self ∧
  count_tier self "HL23PYR" = gids_tier self ∧
  get_population_cell_count self "HL23PYR" = PInt 2.
Proof.
  intros cell d self. split; [reflexivity|]. split; [reflexivity|].
  refine (proj2 (proj2 (proj2 (proj2 (proj2 (proj2 (proj2
            (resolver_ladders self "HL23PYR"))))))) eq_refl _).
  intros tbl Htbl. discriminate Htbl.
Defined.

(** C4 as stated fails.  A record that has both a roster and a count table:
    the count is read from the table and the ids from the roster, so the
    ladders differ and the two disagree.  And within the table tier, a
    population outside the fixed order has its table count but no ids. *)
Lemma resolver_ladders_counterexample :
  let cell g pop := {| gid := g; Analyze.tags := Some {[ "pop" := pop ]} |} in
  let both := {| simData := None;
                 simConfig := Some {| duration := None;
                                      cellNumber := Some {[ "HL23PYR" := 5%Z ]} |};
                 net := Some {| pops := None; cells := Some [cell 0%Z "HL23PYR"] |} |} in
  let table_only := {| simData := None;
                       simConfig := Some {| duration := None;
                                            cellNumber := Some {[ "HL23PYR" := 2%Z;
                                                                  "L5PYR" := 3%Z ]} |};
                       net := None |} in
  (∃ self, load_data both = Ok self ∧
           count_tier self "HL23PYR" = CountTable ∧ gids_tier self = Roster ∧
           get_population_cell_count self "HL23PYR" = PInt 5 ∧
           get_population_gids self "HL23PYR" = [0%Z]) ∧
  (∃ self, load_data table_only = Ok self ∧
           count_tier self "L5PYR" = CountTable ∧ gids_tier self = CountTable ∧
           get_population_cell_count self "L5PYR" = PInt 3 ∧
           get_population_gids self "L5PYR" = []).
Proof.
  cbn zeta. split; eexists; (split; [reflexivity|]); repeat split; reflexivity.
Qed.

(** ** The bin grid of the rate histogram *)

Lemma Qceiling_succ (x : Q) : Qceiling (x + 1) = (Qceiling x + 1)%Z.
Proof.
  pose proof (Qle_ceiling x) as H1. pose proof (Qceiling_lt x) as H2.
  pose proof (Qle_ceiling (x + 1)) as H3. pose proof (Qceiling_lt (x + 1)) as H4.
  unfold Z.sub in H2, H4.
  rewrite inject_Z_plus, inject_Z_opp in H2, H4. change (inject_Z 1) with 1 in H2, H4.
  assert (A : inject_Z (Qceiling x) < inject_Z (Qceiling (x + 1))) by lra.
  assert (B : inject_Z (Qceiling (x + 1)) < inject_Z (Qceiling x) + 1 + 1) by lra.
  rewrite <- Zlt_Qlt in A.
  change (inject_Z (Qceiling x) + 1 + 1)
    with (inject_Z (Qceiling x) + inject_Z 1 + inject_Z 1) in B.
  rewrite <- !inject_Z_plus, <- Zlt_Qlt in B. lia.
Qed.

Lemma arange_edge_count (d b : Q) :
  0 < b → Qceiling ((d + b - 0) / b) = (Qceiling (d / b) + 1)%Z.
Proof.
  intros Hb. rewrite <- Qceiling_succ. apply Qceiling_comp. field.
  intros E. rewrite E in Hb. by apply Qlt_irrefl in Hb.
Qed.

Lemma length_midpoints (edges : list Q) : length (midpoints edges) = pred (length edges).
Proof.
  induction edges as [|x [|y rest] IH]; [done..|].
  change (midpoints (x :: y :: rest)) with ((x + y) / 2 :: midpoints (y :: rest)).
  cbn [length]. rewrite IH. reflexivity.
Qed.

Lemma length_np_diff (l : list Z) : length (np_diff l) = pred (length l).
Proof.
  induction l as [|x [|y rest] IH]; [done..|].
  change (np_diff (x :: y :: rest)) with ((y - x)%Z :: np_diff (y :: rest)).
  cbn [length]. rewrite IH. reflexivity.
Qed.

Lemma length_search_sorted (a edges : list Q) :
  length (search_sorted_inclusive a edges) = length edges.
Proof.
  induction edges as [|x [|y rest] IH]; [done..|].
  change (search_sorted_inclusive a (x :: y :: rest))
    with (count_lt a x :: search_sorted_inclusive a (y :: rest)).
  cbn [length]. rewrite IH. reflexivity.
Qed.

Lemma any_decreasing_cons (x y : Q) (rest : list Q) :
  any_decreasing (x :: y :: rest) = Qlt_bool y x || any_decreasing (y :: rest).
Proof. reflexivity. Qed.

Lemma arange_not_decreasing (b : Q) (k n : nat) :
  0 < b →
  any_decreasing ((λ i, 0 + inject_Z i * b) <$> (Z.of_nat <$> seq k n)) = false.
Proof.
  intros Hb. revert k. induction n as [|n IH]; intros k; [done|].
  destruct n as [|n]; [done|].
  specialize (IH (S k)). cbn [seq fmap list_fmap] in IH |- *.
  rewrite any_decreasing_cons, IH, orb_false_r.
  unfold Qlt_bool. apply negb_false_iff, Qle_bool_iff.
  rewrite Nat2Z.inj_succ. unfold Z.succ. rewrite inject_Z_plus.
  change (inject_Z 1) with 1.
  set (x := inject_Z (Z.of_nat k)).
  assert (E : 0 + (x + 1) * b == 0 + x * b + b) by ring.
  rewrite E. lra.
Qed.

Lemma midpoints_lookup (f : Z → Q) (k n i : nat) :
  (S i < n)%nat →
  midpoints (f <$> (Z.of_nat <$> seq k n)) !! i
  = Some ((f (Z.of_nat (k + i)) + f (Z.of_nat (k + S i))) / 2).
Proof.
  revert k i. induction n as [|n IH]; intros k i Hi; [lia|].
  destruct n as [|n]; [lia|].
  specialize (IH (S k)). cbn [seq fmap list_fmap] in IH |- *. cbn [midpoints].
  destruct i as [|i].
  - cbn [lookup list_lookup]. by rewrite Nat.add_0_r, Nat.add_1_r.
  - cbn [lookup list_lookup]. rewrite IH by lia. do 3 f_equal; f_equal; lia.
Qed.

Section Histogram.
Variables (self : analyzer) (pop_name : string) (bin_size : Q).
Hypothesis bin_size_pos : 0 < bin_size.
Hypothesis duration_nonneg : 0 <= self_duration self.

Let bin_center (i : Z) : Q := inject_Z i * bin_size + bin_size / 2.

(** The early return: no spikes for the population, or a zero cell count.
    The grid has [floor(duration / bin_size)] bins ([int] truncates). *)
Lemma empty_grid (spike_times : list Q) :
  get_population_spikes self pop_name = Ok spike_times →
  spike_times = [] ∨ get_population_cell_count self pop_name = PInt 0 →
  let n_bins := Qfloor (self_duration self / bin_size) in
  compute_firing_rate_histogram self pop_name bin_size
  = Ok (bin_center <$> range n_bins, Rates ((λ _, 0) <$> range n_bins)).
Proof.
  intros Hsp Hempty n_bins. unfold compute_firing_rate_histogram.
  rewrite Hsp. cbn [mbind outcome_bind obind].
  assert (Hguard : bool_decide (length spike_times = 0%nat)
                   || is_zero (get_population_cell_count self pop_name) = true).
  { destruct Hempty as [->| ->]; [done|]. apply orb_true_r. }
  rewrite Hguard, py_div_ok by (by apply Qpos_nonzero).
  cbn [mbind outcome_bind obind].
  assert (Hq : 0 <= self_duration self / bin_size).
  { apply Qle_shift_div_l; [done|]. by rewrite Qmult_0_l. }
  rewrite py_int_floor by done. fold n_bins.
  assert (H0 : (0 <= n_bins)%Z).
  { unfold n_bins. rewrite <- py_int_floor by done. by apply py_int_nonneg. }
  destruct (n_bins <? 0)%Z eqn:E; [lia|]. reflexivity.
Qed.

(** The histogram proper: spikes present and a non-zero integer cell count.
    The grid has [ceil(duration / bin_size)] bins. *)
Lemma data_grid (spike_times : list Q) (n_cells : Z) :
  get_population_spikes self pop_name = Ok spike_times →
  spike_times ≠ [] →
  get_population_cell_count self pop_name = PInt n_cells → n_cells ≠ 0%Z →
  let n_bins := Z.to_nat (Qceiling (self_duration self / bin_size)) in
  ∃ centers rates,
    compute_firing_rate_histogram self pop_name bin_size = Ok (centers, Rates rates) ∧
    length centers = n_bins ∧ length rates = n_bins ∧
    (∀ i : nat, (i < n_bins)%nat → ∃ c, centers !! i = Some c ∧ c == bin_center (Z.of_nat i)).
Proof.
  intros Hsp Hne Hcount Hn n_bins. unfold compute_firing_rate_histogram.
  rewrite Hsp, Hcount. cbn [mbind outcome_bind obind is_zero].
  assert (Hlen : bool_decide (length spike_times = 0%nat) = false).
  { apply bool_decide_eq_false. by destruct spike_times. }
  assert (Hz : (n_cells =? 0)%Z = false) by (by apply Z.eqb_neq).
  rewrite Hlen, Hz. cbn [orb]. unfold np_arange.
  rewrite py_div_ok by (by apply Qpos_nonzero).
  cbn [mbind outcome_bind obind]. rewrite arange_edge_count by done.
  assert (Hc : (0 <= Qceiling (self_duration self / bin_size))%Z).
  { change 0%Z with (Qceiling 0). apply Qceiling_resp_le.
    apply Qle_shift_div_l; [done|]. by rewrite Qmult_0_l. }
  unfold np_histogram, range.
  replace (Z.to_nat (Qceiling (self_duration self / bin_size) + 1)) with (S n_bins) by lia.
  rewrite arange_not_decreasing by done. cbn [mbind outcome_bind obind].
  do 2 eexists. split; [reflexivity|].
  rewrite length_midpoints, !length_fmap, length_np_diff, length_search_sorted,
    !length_fmap, length_seq.
  split; [done|]. split; [done|].
  intros i Hi. eexists. split; [apply (midpoints_lookup _ 0); lia|].
  cbn [plus]. rewrite Nat2Z.inj_succ. unfold Z.succ, bin_center.
  rewrite inject_Z_plus. change (inject_Z 1) with 1. field.
Qed.

End Histogram.

(** C5 at a duration that is not a multiple of the bin size.  One record,
    duration 25 ms, bin size 10 ms: HL23PV has zero cells and gets the
    all-zero series on a grid of 2 bins ([int(25 / 10)]), HL23PYR has cells
    and a spike and gets a grid of 3 bins ([ceil(25 / 10)], from
    [np.arange(0, 35, 10)]). *)
Theorem zero_cell_grid_is_shorter :
  let d := {| simData := Some {| spkt := Some [5]; spkid := Some [0%Z] |};
              simConfig := Some {| duration := Some 25;
                                   cellNumber := Some {[ "HL23PYR" := 2%Z;
                                                         "HL23PV" := 0%Z ]} |};
              net := None |} in
  ∃ self,
    load_data d = Ok self ∧
    get_population_cell_count self "HL23PV" = PInt 0 ∧
    get_population_cell_count self "HL23PYR" = PInt 2 ∧
    Qceiling (self_duration self / 10) = 3%Z ∧
    (∃ centers rates,
        compute_firing_rate_histogram self "HL23PV" 10 = Ok (centers, Rates rates) ∧
        Forall2 Qeq centers [5; 15] ∧ Forall2 Qeq rates [0; 0]) ∧
    (∃ centers rates,
        compute_firing_rate_histogram self "HL23PYR" 10 = Ok (centers, Rates rates) ∧
        Forall2 Qeq centers [5; 15; 25] ∧ Forall2 Qeq rates [50; 0; 0]).
Proof.
  cbn zeta. eexists. split; [reflexivity|]. do 3 (split; [reflexivity|]).
  split; do 2 eexists; (split; [vm_compute; reflexivity|]); split; repeat constructor.
Qed.

(** A zero bin size divides by zero on the early-return path. *)
Example zero_bin_size_raises :
  let d := {| simData := None; simConfig := None; net := None |} in
  ∃ self, load_data d = Ok self ∧
          compute_firing_rate_histogram self "HL23PYR" 0 = Raises ZeroDivisionError.
Proof. cbn zeta. eexists. split; reflexivity. Qed.

(** ** The worked histogram example *)

(** C6, as the code computes it.  Spike times [5, 12, 12] with ids
    [0, 0, 1], duration 20 ms, a population whose ids include 0 and 1 and
    whose count is 2, bin size 10 ms: all three spikes belong to the
    population, the bin edges are [0, 10, 20], the counts per bin are
    [1, 2] (5 falls in [0, 10), both 12s in [10, 20]), the bin centers are
    [5, 15] and the rates are [50, 100] Hz. *)
Theorem known_spikes_histogram (self : analyzer) (pop_name : string) :
  spikes_times self = [5; 12; 12] →
  spikes_ids self = [0; 0; 1]%Z →
  self_duration self = 20 →
  0%Z ∈ get_population_gids self pop_name →
  1%Z ∈ get_population_gids self pop_name →
  get_population_cell_count self pop_name = PInt 2 →
  get_population_spikes self pop_name = Ok [5; 12; 12] ∧
  ∃ bins centers rates,
    np_arange 0 (self_duration self + 10) 10 = Ok bins ∧
    Forall2 Qeq bins [0; 10; 20] ∧
    np_histogram [5; 12; 12] bins = Ok [1; 2]%Z ∧
    compute_firing_rate_histogram self pop_name 10 = Ok (centers, Rates rates) ∧
    Forall2 Qeq centers [5; 15] ∧
    Forall2 Qeq rates [50; 100].
Proof.
  intros Ht Hi Hd H0 H1 Hc.
  assert (Hsp : get_population_spikes self pop_name = Ok [5; 12; 12]).
  { unfold get_population_spikes.
    destruct (get_population_gids self pop_name) as [|g gs] eqn:E.
    { by apply elem_of_nil in H0. }
    rewrite Ht, Hi. cbn [fmap list_fmap].
    rewrite !(bool_decide_eq_true_2 _ H0), (bool_decide_eq_true_2 _ H1).
    reflexivity. }
  split; [exact Hsp|].
  unfold compute_firing_rate_histogram. rewrite Hsp, Hc, Hd.
  do 3 eexists. split; [reflexivity|]. split; [repeat constructor|].
  split; [reflexivity|]. split; [vm_compute; reflexivity|].
  split; repeat constructor.
Qed.

Lemma known_spikes_histogram_witness :
  let d := {| simData := Some {| spkt := Some [5; 12; 12]; spkid := Some [0; 0; 1]%Z |};
              simConfig := Some {| duration := Some 20;
                                   cellNumber := Some {[ "HL23PYR" := 2%Z ]} |};
              net := None |} in
  let self := {| data := d; spikes_times := [5; 12; 12]; spikes_ids := [0; 0; 1]%Z;
                 config := simConfig d; self_duration := 20 |} in
  load_data d = Ok self ∧
  get_population_spikes self "HL23PYR" = Ok [5; 12; 12].
Proof.
  intros d self. split; [reflexivity|].
  assert (H0 : 0%Z ∈ get_population_gids self "HL23PYR").
  { change (0%Z ∈ [0%Z; 1%Z]). apply elem_of_cons. by left. }
  assert (H1 : 1%Z ∈ get_population_gids self "HL23PYR").
  { change (1%Z ∈ [0%Z; 1%Z]). apply elem_of_cons. right. apply elem_of_cons. by left. }
  exact (proj1 (known_spikes_histogram self "HL23PYR" eq_refl eq_refl eq_refl H0 H1 eq_refl)).
Defined.

(** C6 as stated (counts [2, 1], rates [100, 50]) does not hold on that
    record: the counts are [1, 2] and the first rate is 50, not 100. *)
Lemma known_spikes_histogram_counterexample :
  let d := {| simData := Some {| spkt := Some [5; 12; 12]; spkid := Some [0; 0; 1]%Z |};
              simConfig := Some {| duration := Some 20;
                                   cellNumber := Some {[ "HL23PYR" := 2%Z ]} |};
              net := None |} in
  ∃ self bins centers rates,
    load_data d = Ok self ∧
    get_population_gids self "HL23PYR" = [0; 1]%Z ∧
    get_population_cell_count self "HL23PYR" = PInt 2 ∧
    get_population_spikes self "HL23PYR" = Ok [5; 12; 12] ∧
    np_arange 0 (self_duration self + 10) 10 = Ok bins ∧
    np_histogram [5; 12; 12] bins = Ok [1; 2]%Z ∧
    [1; 2]%Z ≠ [2; 1]%Z ∧
    compute_firing_rate_histogram self "HL23PYR" 10 = Ok (centers, Rates rates) ∧
    ¬ Forall2 Qeq rates [100; 50].
Proof.
  cbn zeta. do 4 eexists. split; [reflexivity|]. do 3 (split; [reflexivity|]).
  split; [reflexivity|]. split; [reflexivity|]. split; [discriminate|].
  split; [vm_compute; reflexivity|].
  intros H. apply Forall2_cons_1 in H as [H _]. vm_compute in H. discriminate.
Qed.

(** ** The same arithmetic in binary64

    On the concrete inputs used above, evaluating the source expressions in
    binary64 gives exactly the rationals the model computes. *)

Module Binary64.
Import PrimFloat.

(** [int((1500.0 - 500.0) * 10.0 / 1000.0)] and the last onset
    [500.0 + 9 * (1000.0 / 10.0)]. *)
Example ten_hertz :
  agrees ((1500 - 500) * 10 / 1000)%float 10 ∧
  agrees (500 + 9 * (1000 / 10))%float 1400.
Proof. split; vm_compute; reflexivity. Qed.

(** [counts / (bin_size / 1000.0) / n_cells] for counts 1 and 2, bin size
    10.0 and two cells; and [25.0 / 10.0], whose [int] is 2. *)
Example rates :
  agrees (1 / (10 / 1000) / 2)%float 50 ∧
  agrees (2 / (10 / 1000) / 2)%float 100 ∧
  agrees (25 / 10)%float (5 # 2).
Proof. repeat split; vm_compute; reflexivity. Qed.

End Binary64.


(** ** More on the conversion factor *)

Lemma flat_table_range k v :
  flat_table !! k = Some v → 0.015 <= v ∧ v <= 0.05.
Proof.
  unfold flat_table. intros H.
  repeat (apply lookup_insert_Some in H as [[_ <-]|[_ H]]; [split; discriminate|]).
  apply lookup_singleton_Some in H as [_ <-]. split; discriminate.
Qed.

Lemma conversion_factor_range ct comp :
  0.015 <= conversion_factor ct comp ∧ conversion_factor ct comp <= 0.05.
Proof.
  rewrite conversion_factor_flat.
  destruct (flat_table !! (ct, comp)) as [v|] eqn:E.
  - by apply flat_table_range in E.
  - split; discriminate.
Qed.


(** ** More on the pulse times *)

(** X2. With a positive frequency and a forward window, every pulse time
    returned by the helper lies inside the stimulation window: at or after
    its start and strictly before its end. *)
Theorem onsets_inside_window (p : tms_params_t) (onsets : list Q) (t : Q) :
  0 < freq_Hz p → stim_start_ms p < stim_end_ms p →
  get_tms_pulse_times {| tms_params := Some p |} = Ok onsets →
  t ∈ onsets →
  stim_start_ms p <= t ∧ t < stim_end_ms p.
Proof.
  intros Hf Hw Hget Hin.
  rewrite get_tms_pulse_times_ok in Hget by (by apply Qpos_nonzero).
  injection Hget as <-.
  apply list_elem_of_fmap in Hin as (i & -> & Hi).
  unfold range in Hi. apply list_elem_of_fmap in Hi as (k & -> & Hk).
  apply elem_of_seq in Hk as [_ Hk]. cbn [plus] in Hk.
  pose proof (pulse_product_nonneg p Hf Hw) as Hx.
  pose proof (interval_pos _ Hf) as Hi0.
  set (x := (stim_end_ms p - stim_start_ms p) * freq_Hz p / 1000) in *.
  assert (Hn : n_pulses_helper p = Qfloor x) by (by apply py_int_floor).
  rewrite Hn in Hk.
  assert (Hkx : inject_Z (Z.of_nat k) < x).
  { eapply Qlt_le_trans; [|apply (Qfloor_le x)].
    rewrite <- Zlt_Qlt. lia. }
  assert (Hk0 : 0 <= inject_Z (Z.of_nat k)).
  { change 0 with (inject_Z 0). rewrite <- Zle_Qle. lia. }
  assert (E : x * (1000 / freq_Hz p) == stim_end_ms p - stim_start_ms p).
  { unfold x. field. by apply Qpos_nonzero. }
  assert (Hlt : inject_Z (Z.of_nat k) * (1000 / freq_Hz p) < x * (1000 / freq_Hz p))
    by (by apply Qmult_lt_compat_r).
  assert (Hge : 0 <= inject_Z (Z.of_nat k) * (1000 / freq_Hz p))
    by (apply Qmult_le_0_compat; [done|by apply Qlt_le_weak]).
  rewrite E in Hlt. split; lra.
Qed.

Lemma onsets_inside_window_witness :
  let p := {| ef_amp_V_per_m := 60; freq_Hz := 30; stim_start_ms := 2000;
              stim_end_ms := 3000; width_ms := 1 |} in
  stim_start_ms p <= 2000 + 29 * (1000 / 30) ∧ 2000 + 29 * (1000 / 30) < stim_end_ms p.
Proof.
  intros p.
  refine (onsets_inside_window p _ (2000 + inject_Z 29 * (1000 / 30))
            eq_refl eq_refl eq_refl _).
  vm_compute. do 29 apply list_elem_of_further. apply list_elem_of_here.
Defined.

(** ** The applicator on any roster *)

Lemma stimulated_prefix_declared target_pop cells :
  sections_declared target_pop (stimulated_prefix target_pop cells).
Proof.
  induction cells as [|cell cells IH]; [constructor|].
  cbn [stimulated_prefix].
  destruct (in_pop target_pop cell) eqn:Hin; cbn [andb].
  - case_bool_decide as Hs; [constructor|]. constructor; [done|exact IH].
  - constructor; [|exact IH]. intros H. by rewrite Hin in H.
Qed.

Lemma stimulated_prefix_all target_pop cells :
  sections_declared target_pop cells → stimulated_prefix target_pop cells = cells.
Proof.
  induction cells as [|cell cells IH]; intros Hwf; [done|].
  apply Forall_cons in Hwf as [Hc Hwf]. cbn [stimulated_prefix].
  destruct (in_pop target_pop cell) eqn:Hin; cbn [andb].
  - rewrite bool_decide_eq_false_2 by (by apply Hc). by rewrite IH.
  - by rewrite IH.
Qed.

Lemma run_cell_loop_any target_pop p pulse_interval cells clamps s :
  let pre := stimulated_prefix target_pop cells in
  let created := network_clamps target_pop p pulse_interval pre in
  let r := run (for_each cells (cell_body target_pop p pulse_interval) clamps) s in
  final r = with_clamps s created ∧
  returned r = (if all_sections_declared target_pop cells
                then Ok (clamps ++ seq (length (point_processes s)) (length created))
                else Raises IndexError).
Proof.
  revert clamps s. induction cells as [|cell cells IH]; intros clamps s; cbn zeta.
  - cbn. rewrite app_nil_r, with_clamps_nil. done.
  - cbn [for_each stimulated_prefix all_sections_declared forallb]. rewrite run_mbind.
    fold (all_sections_declared target_pop cells).
    destruct (in_pop target_pop cell) eqn:Hin; cbn [andb negb].
    + case_bool_decide as Hs; cbn [negb andb].
      * unfold cell_body at 1 3. rewrite Hin, run_mbind, find_soma_raises by done.
        cbn [lift run]. unfold then_run. cbn [returned final performed].
        unfold network_clamps. cbn. by rewrite with_clamps_nil.
      * destruct (find_soma_ok cell Hs) as [sec Hsec].
        rewrite (run_cell_body_in target_pop p pulse_interval cell sec) by done.
        destruct (run_pulse_loop target_pop p pulse_interval sec
                    (range (n_pulses_apply p)) clamps s) as (Hr & Hf).
        rewrite (returned_then_run _ _ _ Hr), (final_then_run _ _ _ Hr), Hf.
        destruct (IH (clamps ++ seq (length (point_processes s))
                                    (2 * length (range (n_pulses_apply p))))
                     (with_clamps s (cell_clamps target_pop p pulse_interval sec
                                       (range (n_pulses_apply p))))) as (IHf & IHr).
        cbn zeta in IHf, IHr. rewrite IHf, IHr.
        assert (E : network_clamps target_pop p pulse_interval
                      (cell :: stimulated_prefix target_pop cells)
                    = cell_clamps target_pop p pulse_interval sec (range (n_pulses_apply p))
                      ++ network_clamps target_pop p pulse_interval
                           (stimulated_prefix target_pop cells)).
        { unfold network_clamps. rewrite filter_cons, Hin, decide_True by done.
          cbn [mbind list_bind]. by rewrite Hsec. }
        rewrite E, with_clamps_app. split; [done|].
        destruct (all_sections_declared target_pop cells); [|done].
        f_equal. rewrite <- app_assoc. f_equal. cbn [point_processes with_clamps].
        rewrite !length_app, length_cell_clamps, seq_app. done.
    + unfold cell_body at 1 3. rewrite Hin. cbn [run mret prog_ret]. unfold then_run.
      cbn [returned final performed].
      destruct (IH clamps s) as (IHf & IHr). cbn zeta in IHf, IHr. rewrite IHf, IHr.
      assert (E : network_clamps target_pop p pulse_interval
                    (cell :: stimulated_prefix target_pop cells)
                  = network_clamps target_pop p pulse_interval
                      (stimulated_prefix target_pop cells)).
      { unfold network_clamps. rewrite filter_cons, Hin, decide_False by (by intros []).
        done. }
      by rewrite E.
Qed.

Lemma run_apply_any p target_pop s :
  ¬ freq_Hz p == 0 →
  let pre := stimulated_prefix target_pop (Tms.net_cells s) in
  let created := network_clamps target_pop p (1000 / freq_Hz p) pre in
  let r := run (apply_tms_from_params {| tms_params := Some p |} target_pop) s in
  final r = with_clamps s created ∧
  returned r = (if all_sections_declared target_pop (Tms.net_cells s)
                then Ok (seq (length (point_processes s)) (length created))
                else Raises IndexError).
Proof.
  intros Hf. cbn zeta. unfold apply_tms_from_params. cbn [tms_params].
  rewrite run_mbind, py_div_ok by done. cbn [lift run]. unfold then_run at 1.
  cbn [returned final performed]. unfold net_cells_op, mbind, prog_bind.
  cbn [bind run after returned final performed].
  exact (run_cell_loop_any target_pop p (1000 / freq_Hz p) (Tms.net_cells s) [] s).
Qed.

(** X3. A zero frequency makes the applicator raise [ZeroDivisionError]
    before it touches the simulator: no operation is performed, the roster
    is not read and no clamp exists that did not exist before. *)
Theorem zero_frequency_fails_before_contact (p : tms_params_t) (target_pop : string)
    (s : sim_t) :
  freq_Hz p == 0 →
  let r := run (apply_tms_from_params {| tms_params := Some p |} target_pop) s in
  returned r = Raises ZeroDivisionError ∧ final r = s ∧ performed r = [].
Proof.
  intros Hf. cbn zeta. by rewrite run_apply_tms_zero_freq.
Qed.

Lemma zero_frequency_fails_before_contact_witness :
  let p := {| ef_amp_V_per_m := 60; freq_Hz := 0 # 7; stim_start_ms := 2000;
              stim_end_ms := 3000; width_ms := 1 |} in
  let cell := {| Tms.tags := {[ "pop" := "HL23PYR" ]};
                 secs := [("soma_0", {| hObj := 1%positive |})] |} in
  let s := {| Tms.net_cells := [cell]; point_processes := [] |} in
  performed (run (apply_tms_from_params {| tms_params := Some p |} "HL23PYR") s) = [].
Proof.
  intros p cell s.
  exact (proj2 (proj2 (zero_frequency_fails_before_contact p "HL23PYR" s eq_refl))).
Defined.



Lemma Qsum_app (l1 l2 : list Q) : Qsum (l1 ++ l2) == Qsum l1 + Qsum l2.
Proof.
  unfold Qsum. induction l1 as [|x l1 IH]; cbn [foldr app].
  - ring.
  - rewrite IH. ring.
Qed.

Lemma pulse_pairs_charge amp_nA width ps :
  Qsum (charge <$> pulse_pairs amp_nA width ps) == 0.
Proof.
  induction ps as [|so ps IH]; [reflexivity|].
  change (pulse_pairs amp_nA width (so :: ps))
    with (phase1 so.1 so.2 amp_nA width :: phase2 so.1 so.2 amp_nA width
          :: pulse_pairs amp_nA width ps).
  unfold Qsum in *. cbn [fmap list_fmap foldr]. rewrite IH.
  unfold charge, phase1, phase2. cbn [amp dur]. ring.
Qed.

(** X5. Whatever the config, the target and the roster, and whether the
    call returns or raises, the clamps it adds carry zero net charge: the
    sum of amplitude times duration over all point processes is the same
    after the call as before. *)
Theorem applicator_adds_no_net_charge (cfg : cfg_t) (target_pop : string) (s : sim_t) :
  let r := run (apply_tms_from_params cfg target_pop) s in
  Qsum (charge <$> point_processes (final r)) == Qsum (charge <$> point_processes s).
Proof.
  cbn zeta. destruct cfg as [[p|]]; [|reflexivity].
  destruct (Qeq_dec (freq_Hz p) 0) as [Hz|Hnz].
  - by rewrite run_apply_tms_zero_freq.
  - destruct (run_apply_any p target_pop s Hnz) as (Hfin & _). rewrite Hfin.
    cbn [point_processes with_clamps]. rewrite fmap_app, Qsum_app.
    destruct (network_clamps_pairs target_pop p (1000 / freq_Hz p)
                (stimulated_prefix target_pop (Tms.net_cells s))) as [ps ->].
    rewrite pulse_pairs_charge. ring.
Qed.

Lemma cell_clamps_elem target_pop p pulse_interval sec idxs c :
  c ∈ cell_clamps target_pop p pulse_interval sec idxs →
  ic_sec c = sec ∧ ic_loc c = 0.5 ∧ dur c = width_ms p / 2.
Proof.
  rewrite cell_clamps_pairs. unfold pulse_pairs. intros H.
  apply list_elem_of_bind in H as (so & Hc & Hso).
  apply list_elem_of_fmap in Hso as (i & -> & _).
  apply elem_of_cons in Hc as [->|Hc]; [done|].
  apply elem_of_cons in Hc as [->|Hc]; [done|].
  by apply elem_of_nil in Hc.
Qed.

Lemma network_clamps_elem target_pop p pulse_interval cells c :
  c ∈ network_clamps target_pop p pulse_interval cells →
  ∃ cell, cell ∈ cells ∧ in_pop target_pop cell = true ∧
          find_soma cell = Ok (ic_sec c) ∧ ic_loc c = 0.5 ∧ dur c = width_ms p / 2.
Proof.
  unfold network_clamps. intros H.
  apply list_elem_of_bind in H as (cell & Hc & Hcell).
  apply list_elem_of_filter in Hcell as [Hin Hcell].
  exists cell. split; [done|]. split; [by apply Is_true_true|].
  destruct (find_soma cell) as [sec|e]; [|by apply elem_of_nil in Hc].
  apply cell_clamps_elem in Hc as (<- & ? & ?). done.
Qed.

Lemma stimulated_prefix_elem target_pop cells cell :
  cell ∈ stimulated_prefix target_pop cells → cell ∈ cells.
Proof.
  induction cells as [|c cells IH]; [done|]. cbn [stimulated_prefix].
  destruct (in_pop target_pop c && bool_decide (secs c = [])).
  - intros H. by apply elem_of_nil in H.
  - intros [->|H]%elem_of_cons; [apply list_elem_of_here|].
    apply list_elem_of_further. by apply IH.
Qed.

(** X6. Whatever the config and roster, and whether the call returns or
    raises: the roster is left as it was, the point processes that existed
    before are still there unchanged as a prefix, and every clamp the call
    added sits at location 0.5 of the section chosen for some roster cell
    whose population tag is the target; no other cell receives a clamp. *)
Theorem applicator_touches_only_targets (cfg : cfg_t) (target_pop : string) (s : sim_t) :
  let r := run (apply_tms_from_params cfg target_pop) s in
  Tms.net_cells (final r) = Tms.net_cells s ∧
  ∃ added,
    point_processes (final r) = point_processes s ++ added ∧
    ∀ c, c ∈ added →
      ∃ cell, cell ∈ Tms.net_cells s ∧
              Tms.tags cell !! "pop" = Some target_pop ∧
              find_soma cell = Ok (ic_sec c) ∧ ic_loc c = 0.5.
Proof.
  cbn zeta. destruct cfg as [[p|]].
  2:{ split; [done|]. exists []. split; [by rewrite app_nil_r|].
      intros c H. by apply elem_of_nil in H. }
  destruct (Qeq_dec (freq_Hz p) 0) as [Hz|Hnz].
  - rewrite run_apply_tms_zero_freq by done. split; [done|].
    exists []. split; [by rewrite app_nil_r|]. intros c H. by apply elem_of_nil in H.
  - destruct (run_apply_any p target_pop s Hnz) as (Hfin & _). rewrite Hfin.
    split; [done|]. eexists. split; [reflexivity|].
    intros c Hc. apply network_clamps_elem in Hc as (cell & Hcell & Hin & Hsoma & Hloc & _).
    exists cell. split; [by eapply stimulated_prefix_elem|].
    split; [|done]. unfold in_pop in Hin. by apply bool_decide_eq_true in Hin.
Qed.

(** X7. The applicator and the pulse-time helper agree.  Whenever the helper
    returns pulse times for a config, the clamps the applicator creates are,
    for each targeted cell in roster order (up to a cell without sections),
    one phase-1/phase-2 pair per returned pulse time, in the same order, at
    exactly that onset. *)
Theorem applicator_uses_helper_times (p : tms_params_t) (target_pop : string)
    (s : sim_t) (onsets : list Q) :
  get_tms_pulse_times {| tms_params := Some p |} = Ok onsets →
  let amp_nA := convert_field_to_current (ef_amp_V_per_m p) target_pop "soma" in
  let r := run (apply_tms_from_params {| tms_params := Some p |} target_pop) s in
  point_processes (final r)
  = point_processes s
    ++ (cell ← filter (in_pop target_pop) (stimulated_prefix target_pop (Tms.net_cells s));
        match find_soma cell with
        | Ok sec => pulse_pairs amp_nA (width_ms p) ((λ t, (sec, t)) <$> onsets)
        | Raises _ => []
        end).
Proof.
  intros Hget amp_nA.
  assert (Hnz : ¬ freq_Hz p == 0).
  { intros Hz. unfold get_tms_pulse_times in Hget. cbn [tms_params] in Hget.
    by rewrite py_div_zero in Hget. }
  rewrite get_tms_pulse_times_ok in Hget by done. injection Hget as <-.
  cbn zeta. destruct (run_apply_any p target_pop s Hnz) as (Hfin & _). rewrite Hfin.
  cbn [point_processes with_clamps]. f_equal. unfold network_clamps.
  apply list_bind_ext; [|done]. intros cell.
  destruct (find_soma cell) as [sec|e]; [|done].
  rewrite cell_clamps_pairs, <- list_fmap_compose. reflexivity.
Qed.

Lemma applicator_uses_helper_times_witness :
  let p := {| ef_amp_V_per_m := 40; freq_Hz := 10; stim_start_ms := 500;
              stim_end_ms := 700; width_ms := 1 |} in
  let cell := {| Tms.tags := {[ "pop" := "HL23PYR" ]};
                 secs := [("soma", {| hObj := 5%positive |})] |} in
  let s := {| Tms.net_cells := [cell]; point_processes := [] |} in
  let r := run (apply_tms_from_params {| tms_params := Some p |} "HL23PYR") s in
  delay <$> point_processes (final r)
  = [500 + inject_Z 0 * (1000 / 10); 500 + inject_Z 0 * (1000 / 10) + 1 / 2;
     500 + inject_Z 1 * (1000 / 10); 500 + inject_Z 1 * (1000 / 10) + 1 / 2].
Proof.
  intros p cell s r. subst r.
  rewrite (applicator_uses_helper_times p "HL23PYR" s _ eq_refl). reflexivity.
Defined.



(** ** The stimulated section *)

Lemma secs_get_Some name l s :
  secs_get name l = Some s → (name, s) ∈ l.
Proof.
  unfold secs_get. intros H.
  destruct (list_find (λ kv, kv.1 = name) l) as [[i [n' s']]|] eqn:E; [|done].
  injection H as <-. apply list_find_Some in E as (Hl & Hn & _).
  cbn in Hn. subst n'. by eapply list_elem_of_lookup_2.
Qed.

Lemma secs_get_None name l :
  secs_get name l = None ↔ name ∉ l.*1.
Proof.
  unfold secs_get. split.
  - intros H. destruct (list_find (λ kv, kv.1 = name) l) eqn:E; [done|].
    intros Hin. apply list_elem_of_fmap in Hin as ([n s] & Hn & Hl).
    eapply list_find_None in E. eapply Forall_forall in E; [|exact Hl]. by apply E.
  - intros Hout. destruct (list_find (λ kv, kv.1 = name) l) as [[i [n' s']]|] eqn:E; [|done].
    apply list_find_Some in E as (Hl & Hn & _). cbn in Hn. subst n'.
    exfalso. apply Hout. apply list_elem_of_fmap. exists (name, s').
    split; [done|]. by eapply list_elem_of_lookup_2.
Qed.

Lemma secs_get_unique name l s :
  NoDup l.*1 → (name, s) ∈ l → secs_get name l = Some s.
Proof.
  intros Hnd Hin. destruct (secs_get name l) as [s'|] eqn:E.
  - apply secs_get_Some in E. f_equal.
    apply list_elem_of_lookup in Hin as [i Hi]. apply list_elem_of_lookup in E as [j Hj].
    assert (i = j).
    { eapply NoDup_lookup; [exact Hnd| |]; rewrite list_lookup_fmap.
      - by rewrite Hi.
      - by rewrite Hj. }
    subst j. congruence.
  - apply secs_get_None in E. exfalso. apply E.
    apply list_elem_of_fmap. by exists (name, s).
Qed.

(** X9. Which section is stimulated.  For a cell whose section names are
    distinct (a dict): the section named [soma_0] if there is one; otherwise
    the section named [soma] if there is one; otherwise the first declared
    section; and [IndexError] when the cell declares none.  The chosen
    section is always one of the cell's own. *)
Theorem find_soma_preference (cell : cell_t) :
  NoDup (secs cell).*1 →
  (∀ s, ("soma_0", s) ∈ secs cell → find_soma cell = Ok (hObj s)) ∧
  (∀ s, "soma_0" ∉ (secs cell).*1 → ("soma", s) ∈ secs cell →
        find_soma cell = Ok (hObj s)) ∧
  (∀ name s rest, "soma_0" ∉ (secs cell).*1 → "soma" ∉ (secs cell).*1 →
        secs cell = (name, s) :: rest → find_soma cell = Ok (hObj s)) ∧
  (secs cell = [] → find_soma cell = Raises IndexError) ∧
  (∀ sec, find_soma cell = Ok sec → ∃ name s, (name, s) ∈ secs cell ∧ hObj s = sec).
Proof.
  intros Hnd. unfold find_soma. repeat split.
  - intros s Hin. by rewrite (secs_get_unique _ _ s).
  - intros s Hout Hin. apply secs_get_None in Hout. rewrite Hout.
    by rewrite (secs_get_unique _ _ s).
  - intros name s rest H0 H1 Hsecs. apply secs_get_None in H0, H1.
    by rewrite H0, H1, Hsecs.
  - by intros ->.
  - intros sec H.
    destruct (secs_get "soma_0" (secs cell)) as [s|] eqn:E0.
    { injection H as <-. apply secs_get_Some in E0. eauto. }
    destruct (secs_get "soma" (secs cell)) as [s|] eqn:E1.
    { injection H as <-. apply secs_get_Some in E1. eauto. }
    destruct (secs cell) as [|[name s] rest] eqn:E; [done|].
    injection H as <-. exists name, s. split; [apply list_elem_of_here|done].
Qed.

Lemma find_soma_preference_witness :
  let cell := {| Tms.tags := ∅;
                 secs := [("dend_0", {| hObj := 4%positive |});
                          ("soma", {| hObj := 2%positive |});
                          ("soma_0", {| hObj := 9%positive |})] |} in
  find_soma cell = Ok 9%positive.
Proof.
  intros cell.
  assert (Hnd : NoDup (secs cell).*1).
  { apply (bool_decide_unpack _). vm_compute. exact I. }
  refine (proj1 (find_soma_preference cell Hnd) {| hObj := 9%positive |} _).
  do 2 apply list_elem_of_further. apply list_elem_of_here.
Defined.

(** ** Spikes of a population *)

Lemma mask_select_ok (times : list Q) (mask : list bool) :
  length times = length mask →
  mask_select times mask
  = Ok ((zip times mask) ≫= λ tb : Q * bool, if tb.2 then [tb.1] else []).
Proof.
  revert mask. induction times as [|t times IH]; intros [|b mask] Hlen; try done.
  cbn [mask_select zip zip_with mbind list_bind]. rewrite IH by (cbn in Hlen; lia).
  cbn [mbind outcome_bind obind]. by destruct b.
Qed.

Lemma mask_select_mismatch (times : list Q) (mask : list bool) :
  length times ≠ length mask → mask_select times mask = Raises IndexError.
Proof.
  revert mask. induction times as [|t times IH]; intros [|b mask] Hlen; try done.
  cbn [mask_select]. rewrite IH by (cbn in Hlen; lia). reflexivity.
Qed.

Lemma mask_filter (times : list Q) (ids : list Z) (P : Z → bool) :
  (zip times (P <$> ids)) ≫= (λ tb : Q * bool, if tb.2 then [tb.1] else [])
  = (filter (λ ti : Q * Z, P ti.2) (zip times ids)).*1.
Proof.
  revert ids. induction times as [|t times IH]; intros [|i ids]; try done.
  cbn [zip zip_with fmap list_fmap mbind list_bind]. rewrite filter_cons. cbn [snd fst].
  specialize (IH ids). cbn [zip fmap mbind] in IH. rewrite IH.
  destruct (P i); [rewrite decide_True by done|rewrite decide_False by (by intros [])]; done.
Qed.

(** X10. The spikes of a population.  With no resolved id the result is
    empty, even if the two spike arrays differ in length.  Otherwise, when
    the arrays have the same length, the result is the times of exactly
    those spikes whose cell id is one of the population's ids, in recording
    order; and when the lengths differ the boolean-mask indexing raises
    [IndexError]. *)
Theorem population_spikes_characterised (self : analyzer) (pop_name : string) :
  let gids := get_population_gids self pop_name in
  (gids = [] → get_population_spikes self pop_name = Ok []) ∧
  (gids ≠ [] → length (spikes_times self) = length (spikes_ids self) →
     get_population_spikes self pop_name
     = Ok (filter (λ ti : Q * Z, ti.2 ∈ gids)
             (zip (spikes_times self) (spikes_ids self))).*1) ∧
  (gids ≠ [] → length (spikes_times self) ≠ length (spikes_ids self) →
     get_population_spikes self pop_name = Raises IndexError).
Proof.
  cbn zeta. unfold get_population_spikes.
  destruct (get_population_gids self pop_name) as [|g gs] eqn:E.
  { repeat split; done. }
  split; [done|]. split; intros _ Hlen.
  - rewrite mask_select_ok by (by rewrite length_fmap).
    rewrite (mask_filter _ _ (λ i, bool_decide (i ∈ g :: gs))).
    do 2 f_equal. apply list_filter_iff. intros [t i]. cbn [snd].
    split; intros H; [by apply bool_decide_unpack in H|by apply bool_decide_pack].
  - apply mask_select_mismatch. by rewrite length_fmap.
Qed.

Lemma population_spikes_characterised_witness :
  let d := {| simData := Some {| spkt := Some [5; 12]; spkid := Some [0%Z] |};
              simConfig := Some {| duration := Some 20;
                                   cellNumber := Some {[ "HL23PYR" := 2%Z ]} |};
              net := None |} in
  let self := {| data := d; spikes_times := [5; 12]; spikes_ids := [0%Z];
                 config := simConfig d; self_duration := 20 |} in
  load_data d = Ok self ∧
  get_population_spikes self "HL23PYR" = Raises IndexError ∧
  get_population_spikes self "HL23PV" = Ok [].
Proof.
  intros d self. split; [reflexivity|]. split.
  - refine (proj2 (proj2 (population_spikes_characterised self "HL23PYR")) _ _);
      [discriminate|cbn; lia].
  - exact (proj1 (population_spikes_characterised self "HL23PV") eq_refl).
Defined.

(** ** The rate histogram on every input *)

Lemma np_histogram_length a edges counts :
  np_histogram a edges = Ok counts → length counts = pred (length edges).
Proof.
  unfold np_histogram. destruct (any_decreasing edges); [done|].
  intros [= <-]. by rewrite length_np_diff, length_search_sorted.
Qed.



Lemma length_filter_mono {A} (P R : A → bool) (l : list A) :
  (∀ x, P x = true → R x = true) →
  (length (filter (λ x, P x) l) <= length (filter (λ x, R x) l))%nat.
Proof.
  intros H. induction l as [|x l IH]; [done|]. rewrite !filter_cons.
  destruct (P x) eqn:EP.
  - rewrite (H x EP), !decide_True by done. cbn [length]. lia.
  - rewrite (decide_False (P:=Is_true false)) by (by intros []).
    destruct (R x); [rewrite decide_True by done|rewrite decide_False by (by intros [])];
      cbn [length]; lia.
Qed.

Lemma Qlt_bool_true (x y : Q) : Qlt_bool x y = true ↔ x < y.
Proof.
  unfold Qlt_bool. rewrite negb_true_iff. split.
  - intros H. apply Qnot_le_lt. intros Hle. apply Qle_bool_iff in Hle. congruence.
  - intros H. destruct (Qle_bool y x) eqn:E; [|done].
    apply Qle_bool_iff in E. exfalso. by apply (Qlt_not_le _ _ H).
Qed.

Lemma count_lt_mono (a : list Q) (x y : Q) : x <= y → (count_lt a x <= count_lt a y)%Z.
Proof.
  intros Hxy. unfold count_lt. apply inj_le, length_filter_mono.
  intros t Ht. apply Qlt_bool_true in Ht. apply Qlt_bool_true.
  by eapply Qlt_le_trans.
Qed.

Lemma count_lt_le (a : list Q) (x y : Q) : x <= y → (count_lt a x <= count_le a y)%Z.
Proof.
  intros Hxy. unfold count_lt, count_le. apply inj_le, length_filter_mono.
  intros t Ht. apply Qlt_bool_true in Ht. apply Qle_bool_iff.
  apply Qlt_le_weak. by eapply Qlt_le_trans.
Qed.

Lemma search_sorted_cons (a : list Q) (x y : Q) (rest : list Q) :
  search_sorted_inclusive a (x :: y :: rest)
  = count_lt a x :: search_sorted_inclusive a (y :: rest).
Proof. reflexivity. Qed.

Lemma np_diff_cons (x y : Z) (rest : list Z) :
  np_diff (x :: y :: rest) = (y - x)%Z :: np_diff (y :: rest).
Proof. reflexivity. Qed.

Lemma search_sorted_head_le (a : list Q) (x y : Q) (rest : list Q) :
  x <= y →
  ∃ h tl, search_sorted_inclusive a (y :: rest) = h :: tl ∧ (count_lt a x <= h)%Z.
Proof.
  intros Hxy. destruct rest as [|z rest].
  - exists (count_le a y), []. split; [done|]. by apply count_lt_le.
  - exists (count_lt a y), (search_sorted_inclusive a (z :: rest)).
    split; [done|]. by apply count_lt_mono.
Qed.

Lemma histogram_counts_nonneg (a edges : list Q) (counts : list Z) :
  np_histogram a edges = Ok counts → Forall (λ c, (0 <= c)%Z) counts.
Proof.
  unfold np_histogram. destruct (any_decreasing edges) eqn:Hdec; [done|].
  intros [= <-]. induction edges as [|x [|y rest] IH]; [constructor..|].
  rewrite any_decreasing_cons in Hdec. apply orb_false_iff in Hdec as [Hxy Hrest].
  assert (Hle : x <= y).
  { apply Qnot_lt_le. intros Hlt. apply Qlt_bool_true in Hlt. congruence. }
  rewrite search_sorted_cons.
  destruct (search_sorted_head_le a x y rest Hle) as (h & tl & E & Hh).
  specialize (IH Hrest). rewrite E in IH |- *. rewrite np_diff_cons.
  constructor; [lia|exact IH].
Qed.

(** X12. The histogram never reports a negative rate when the bin size is
    positive and the resolved cell count is a non-negative integer. *)
Theorem histogram_rates_nonnegative (self : analyzer) (pop_name : string)
    (bin_size : Q) (n_cells : Z) (centers rates : list Q) :
  0 < bin_size →
  get_population_cell_count self pop_name = PInt n_cells → (0 <= n_cells)%Z →
  compute_firing_rate_histogram self pop_name bin_size = Ok (centers, Rates rates) →
  Forall (λ r, 0 <= r) rates.
Proof.
  intros Hb Hcount Hn. unfold compute_firing_rate_histogram. rewrite Hcount.
  destruct (get_population_spikes self pop_name) as [spike_times|e]; [|done].
  cbn [mbind outcome_bind obind is_zero].
  destruct (bool_decide (length spike_times = 0%nat) || (n_cells =? 0)%Z).
  - destruct (py_div (self_duration self) bin_size) as [q|e]; [|done].
    cbn [mbind outcome_bind obind]. destruct (py_int q <? 0)%Z; [done|].
    intros [= _ <-]. apply Forall_fmap, Forall_forall. intros i _. cbn. discriminate.
  - destruct (np_arange 0 (self_duration self + bin_size) bin_size) as [bins|e]; [|done].
    cbn [mbind outcome_bind obind].
    destruct (np_histogram spike_times bins) as [counts|e] eqn:Hh; [|done].
    cbn [mbind outcome_bind obind]. intros [= _ <-].
    apply histogram_counts_nonneg in Hh.
    rewrite <- list_fmap_compose. apply Forall_fmap.
    eapply Forall_impl; [exact Hh|]. intros c Hc. cbn.
    assert (0 <= inject_Z c) by (change 0 with (inject_Z 0); by rewrite <- Zle_Qle).
    assert (0 <= inject_Z n_cells) by (change 0 with (inject_Z 0); by rewrite <- Zle_Qle).
    assert (Hk : 0 < bin_size / 1000) by (apply Qlt_shift_div_l; [reflexivity|lra]).
    assert (0 <= inject_Z c / (bin_size / 1000)).
    { apply Qle_shift_div_l; [done|]. lra. }
    unfold Qdiv at 1. apply Qmult_le_0_compat; [done|]. by apply Qinv_le_0_compat.
Qed.

Lemma histogram_rates_nonnegative_witness :
  let d := {| simData := Some {| spkt := Some [5; 12; 12]; spkid := Some [0; 0; 1]%Z |};
              simConfig := Some {| duration := Some 20;
                                   cellNumber := Some {[ "HL23PYR" := 2%Z ]} |};
              net := None |} in
  let self := {| data := d; spikes_times := [5; 12; 12]; spikes_ids := [0; 0; 1]%Z;
                 config := simConfig d; self_duration := 20 |} in
  ∃ centers rates,
    compute_firing_rate_histogram self "HL23PYR" 10 = Ok (centers, Rates rates) ∧
    Forall (λ r, 0 <= r) rates.
Proof.
  intros d self. do 2 eexists. split; [reflexivity|].
  refine (histogram_rates_nonnegative self "HL23PYR" 10 2 _ _ eq_refl eq_refl _ eq_refl).
  discriminate.
Defined.

Lemma sum_histogram_counts (a : list Q) (e0 : Q) (rest : list Q) (el : Q) :
  last rest = Some el →
  Zsum (np_diff (search_sorted_inclusive a (e0 :: rest)))
  = (count_le a el - count_lt a e0)%Z.
Proof.
  revert e0. induction rest as [|e1 [|e2 rest] IH]; intros e0 Hlast; [done| |].
  - injection Hlast as <-. cbn. lia.
  - rewrite search_sorted_cons.
    change (search_sorted_inclusive a (e1 :: e2 :: rest))
      with (count_lt a e1 :: search_sorted_inclusive a (e2 :: rest)).
    rewrite np_diff_cons. unfold Zsum in *. cbn [foldr].
    change (count_lt a e1 :: search_sorted_inclusive a (e2 :: rest))
      with (search_sorted_inclusive a (e1 :: e2 :: rest)).
    rewrite (IH e1) by exact Hlast. lia.
Qed.

Lemma count_le_all (a : list Q) (e : Q) :
  Forall (λ t, t <= e) a → count_le a e = Z.of_nat (length a).
Proof.
  intros H. unfold count_le. f_equal. induction H as [|t a Ht _ IH]; [done|].
  rewrite filter_cons, decide_True by (by apply Is_true_true, Qle_bool_iff).
  cbn [length]. by rewrite IH.
Qed.

Lemma count_lt_none (a : list Q) (e : Q) :
  Forall (λ t, e <= t) a → count_lt a e = 0%Z.
Proof.
  intros H. unfold count_lt. change 0%Z with (Z.of_nat 0). f_equal.
  induction H as [|t a Ht _ IH]; [done|].
  rewrite filter_cons, decide_False; [exact IH|].
  intros Hlt. apply Is_true_true, Qlt_bool_true in Hlt. by apply (Qlt_not_le _ _ Hlt).
Qed.

Lemma Qsum_scaled (counts : list Z) (k m : Q) :
  Qsum ((λ x, x / m) <$> ((λ c, inject_Z c / k) <$> counts))
  == inject_Z (Zsum counts) / k / m.
Proof.
  unfold Qsum, Zsum. induction counts as [|c counts IH]; cbn [fmap list_fmap foldr].
  - unfold Qdiv. ring.
  - cbn [fmap] in IH. rewrite IH, inject_Z_plus. unfold Qdiv. ring.
Qed.



(** ** One population per cell id *)

Lemma elem_of_range2 (a b g : Z) : g ∈ range2 a b ↔ (a <= g < b)%Z.
Proof.
  unfold range2. rewrite list_elem_of_fmap. split.
  - intros (i & -> & Hi). apply elem_of_seq in Hi. lia.
  - intros H. exists (Z.to_nat (g - a)). split; [lia|]. apply elem_of_seq. lia.
Qed.

Lemma gid_ranges_lower tbl pop order start g :
  (∀ o, o ∈ order → (0 <= default 0 (tbl !! o))%Z) →
  g ∈ gid_ranges tbl pop order start → (start <= g)%Z.
Proof.
  revert start. induction order as [|o order IH]; intros start Hpos Hin.
  - by apply elem_of_nil in Hin.
  - cbn [gid_ranges] in Hin.
    assert (0 <= default 0 (tbl !! o))%Z by (apply Hpos; apply list_elem_of_here).
    destruct (decide (o = pop)).
    + apply elem_of_range2 in Hin. lia.
    + apply IH in Hin; [lia|]. intros o' Ho'. apply Hpos. by apply list_elem_of_further.
Qed.

Lemma gid_ranges_disjoint tbl p1 p2 order start g :
  (∀ o, o ∈ order → (0 <= default 0 (tbl !! o))%Z) →
  g ∈ gid_ranges tbl p1 order start → g ∈ gid_ranges tbl p2 order start → p1 = p2.
Proof.
  revert start. induction order as [|o order IH]; intros start Hpos H1 H2.
  - by apply elem_of_nil in H1.
  - cbn [gid_ranges] in H1, H2.
    assert (Hrest : ∀ o', o' ∈ order → (0 <= default 0 (tbl !! o'))%Z)
      by (intros o' Ho'; apply Hpos; by apply list_elem_of_further).
    destruct (decide (o = p1)) as [E1|N1], (decide (o = p2)) as [E2|N2].
    + congruence.
    + apply elem_of_range2 in H1. apply gid_ranges_lower in H2; [lia|done].
    + apply elem_of_range2 in H2. apply gid_ranges_lower in H1; [lia|done].
    + by eapply IH.
Qed.

(** X14. A cell id belongs to at most one population.  When ids come from
    the roster and the roster's gids are distinct, or when they come from
    the count table and the four ordered counts are non-negative, an id that
    two population names both resolve to forces the names to be equal; so no
    spike is attributed to two populations. *)
Theorem gid_in_one_population (self : analyzer) (p1 p2 : string) (g : Z) :
  match Analyze.net_cells self with
  | Some cs => NoDup (gid <$> cs)
  | None => ∀ tbl, config_cellNumber self = Some tbl →
                   ∀ pop, pop ∈ pop_order → (0 <= default 0 (tbl !! pop))%Z
  end →
  g ∈ get_population_gids self p1 → g ∈ get_population_gids self p2 → p1 = p2.
Proof.
  unfold get_population_gids.
  destruct (Analyze.net_cells self) as [cs|].
  - intros Hnd H1 H2.
    apply list_elem_of_fmap in H1 as (c1 & Hg1 & Hc1).
    apply list_elem_of_fmap in H2 as (c2 & Hg2 & Hc2).
    apply list_elem_of_filter in Hc1 as [Hp1 Hc1].
    apply list_elem_of_filter in Hc2 as [Hp2 Hc2].
    apply list_elem_of_lookup in Hc1 as [i Hi]. apply list_elem_of_lookup in Hc2 as [j Hj].
    assert (i = j).
    { eapply NoDup_lookup; [exact Hnd| |]; rewrite list_lookup_fmap.
      - rewrite Hi. cbn. by rewrite <- Hg1.
      - rewrite Hj. cbn. by rewrite <- Hg2. }
    subst j. assert (c1 = c2) by congruence. subst c2.
    unfold has_pop in Hp1, Hp2. congruence.
  - destruct (config_cellNumber self) as [tbl|].
    + intros Hpos H1 H2. eapply gid_ranges_disjoint; [by apply Hpos|exact H1|exact H2].
    + intros _ H1. by apply elem_of_nil in H1.
Qed.

Lemma gid_in_one_population_witness :
  let tbl : gmap string Z :=
    {[ "HL23PYR" := 80%Z; "HL23SST" := 8%Z; "HL23PV" := 6%Z; "HL23VIP" := 6%Z ]} in
  let d := {| simData := None;
              simConfig := Some {| duration := Some 2000; cellNumber := Some tbl |};
              net := None |} in
  let self := {| data := d; spikes_times := []; spikes_ids := [];
                 config := simConfig d; self_duration := 2000 |} in
  85%Z ∈ get_population_gids self "HL23PV" ∧ "HL23PV" = "HL23PV".
Proof.
  intros tbl d self.
  assert (H : 85%Z ∈ get_population_gids self "HL23PV").
  { change (85%Z ∈ range2 (0 + 80) (0 + 80 + 6)). apply elem_of_range2. lia. }
  split; [exact H|].
  refine (gid_in_one_population self "HL23PV" "HL23PV" 85 _ H H).
  intros tbl' [= <-] pop Hin. unfold pop_order in Hin.
  repeat (apply elem_of_cons in Hin as [->|Hin]; [vm_compute; discriminate|]).
  by apply elem_of_nil in Hin.
Defined.

(** ** Pulse markers of the analyzer *)


(** ** The LFP window *)

Lemma py_slice_nonneg {A} (l : list A) (a b : Z) :
  (0 <= a)%Z → (0 <= b)%Z →
  py_slice l a b
  = take (Z.to_nat (Z.min b (Z.of_nat (length l)) - Z.min a (Z.of_nat (length l))))
      (drop (Z.to_nat (Z.min a (Z.of_nat (length l)))) l).
Proof.
  intros Ha Hb. unfold py_slice. cbn zeta.
  destruct (a <? 0)%Z eqn:Ea; [lia|]. destruct (b <? 0)%Z eqn:Eb; [lia|]. reflexivity.
Qed.

Lemma py_slice_lookup {A} (l : list A) (a b : Z) (k : nat) (x : A) :
  (0 <= a)%Z → (0 <= b)%Z →
  py_slice l a b !! k = Some x →
  l !! (Z.to_nat a + k)%nat = Some x ∧ (a + Z.of_nat k < b)%Z.
Proof.
  intros Ha Hb. rewrite py_slice_nonneg by done. intros H.
  apply lookup_take_Some in H as [H Hk]. rewrite lookup_drop in H.
  pose proof (lookup_lt_Some _ _ _ H) as Hlt.
  split; [|lia]. rewrite <- H. f_equal. lia.
Qed.

Lemma py_int_bounds (x : Q) :
  0 <= x → inject_Z (py_int x) <= x ∧ x < inject_Z (py_int x) + 1.
Proof.
  intros Hx. rewrite py_int_floor by done. split; [apply Qfloor_le|].
  pose proof (Qlt_floor x) as H. rewrite inject_Z_plus in H. exact H.
Qed.



(** ** The AD stages *)

Import CellWrapper.

Lemma scale_lookup name k (seg : gmap string Q) mech :
  scale name k seg !! mech
  = if decide (name = mech) then (λ g, g * k) <$> seg !! name else seg !! mech.
Proof. unfold scale. apply lookup_alter. Qed.

Lemma scale_dom name k (seg : gmap string Q) : dom (scale name k seg) = dom seg.
Proof. unfold scale. apply dom_alter_L. Qed.

Ltac scale_cases :=
  rewrite !scale_lookup; repeat (case_decide; try done).

Ltac stage_case mech name :=
  destruct (decide (mech = name)) as [->|]; [by scale_cases|].

Lemma stage1_lookup (seg : gmap string Q) (mech : string) :
  stage1 seg !! mech = scaled_by (ad_factor 1 mech) (seg !! mech).
Proof.
  unfold stage1, ad_factor, scaled_by; cbn [Z.eqb Pos.eqb]; cbn zeta.
  stage_case mech "Ih". stage_case mech "K_T". stage_case mech "SK".
  stage_case mech "Kv3_1". stage_case mech "Nap". stage_case mech "NaTg".
  rewrite !scale_lookup, !decide_False by done. by table_miss.
Qed.

Lemma stage2_lookup (seg : gmap string Q) (mech : string) :
  stage2 seg !! mech = scaled_by (ad_factor 2 mech) (seg !! mech).
Proof.
  unfold stage2, ad_factor, scaled_by; cbn [Z.eqb Pos.eqb]; cbn zeta.
  stage_case mech "pas".
  stage_case mech "Ih". stage_case mech "K_T". stage_case mech "SK".
  stage_case mech "Kv3_1". stage_case mech "Nap". stage_case mech "NaTg".
  rewrite !scale_lookup, !decide_False by done. by table_miss.
Qed.

Lemma stage3_lookup (seg : gmap string Q) (mech : string) :
  stage3 seg !! mech = scaled_by (ad_factor 3 mech) (seg !! mech).
Proof.
  unfold stage3, ad_factor, scaled_by; cbn [Z.eqb Pos.eqb]; cbn zeta.
  stage_case mech "pas".
  stage_case mech "Ih". stage_case mech "K_T". stage_case mech "SK".
  stage_case mech "Kv3_1". stage_case mech "Nap". stage_case mech "NaTg".
  rewrite !scale_lookup, !decide_False by done. by table_miss.
Qed.

Lemma stage_dom (seg : gmap string Q) :
  dom (stage1 seg) = dom seg ∧ dom (stage2 seg) = dom seg ∧ dom (stage3 seg) = dom seg.
Proof. unfold stage1, stage2, stage3; cbn zeta. by rewrite !scale_dom. Qed.

Lemma lookup_map {A B} (f : A → B) (l : list A) (i : nat) :
  map f l !! i = f <$> l !! i.
Proof. revert i; induction l as [|x l IH]; intros [|i]; cbn; auto. Qed.

Lemma conductance_map (f : gmap string Q → gmap string Q) c i j mech :
  conductance (map (map f) c) i j mech
  = sec ← c !! i; seg ← sec !! j; f seg !! mech.
Proof.
  unfold conductance. rewrite lookup_map.
  destruct (c !! i) as [sec|]; cbn; [|done].
  rewrite lookup_map. by destruct (sec !! j).
Qed.

Lemma conductance_after_stage c ad_stage i j mech :
  conductance (apply_AD_changes_to_HL23PYR c ad_stage) i j mech
  = scaled_by (ad_factor ad_stage mech) (conductance c i j mech).
Proof.
  assert (Hmap : ∀ f : gmap string Q → gmap string Q,
             (∀ seg, f seg !! mech = scaled_by (ad_factor ad_stage mech) (seg !! mech)) →
             conductance (map (map f) c) i j mech
             = scaled_by (ad_factor ad_stage mech) (conductance c i j mech)).
  { intros f Hf. rewrite conductance_map. unfold conductance.
    destruct (c !! i) as [sec|]; cbn.
    - destruct (sec !! j) as [seg|]; cbn; [apply Hf|].
      unfold scaled_by. by destruct (ad_factor ad_stage mech).
    - unfold scaled_by. by destruct (ad_factor ad_stage mech). }
  unfold apply_AD_changes_to_HL23PYR.
  destruct (ad_stage =? 1)%Z eqn:E1; [apply Z.eqb_eq in E1 as ->|].
  { apply Hmap. intros seg. apply stage1_lookup. }
  destruct (ad_stage =? 2)%Z eqn:E2; [apply Z.eqb_eq in E2 as ->|].
  { apply Hmap. intros seg. apply stage2_lookup. }
  destruct (ad_stage =? 3)%Z eqn:E3; [apply Z.eqb_eq in E3 as ->|].
  { apply Hmap. intros seg. apply stage3_lookup. }
  unfold ad_factor. rewrite E1, E2, E3. reflexivity.
Qed.

Lemma apply_AD_shape c ad_stage :
  ∃ f : gmap string Q → gmap string Q,
    apply_AD_changes_to_HL23PYR c ad_stage = map (map f) c ∧
    ∀ seg, dom (f seg) = dom seg.
Proof.
  unfold apply_AD_changes_to_HL23PYR.
  destruct (ad_stage =? 1)%Z; [exists stage1; split; [done|apply stage_dom]|].
  destruct (ad_stage =? 2)%Z; [exists stage2; split; [done|apply stage_dom]|].
  destruct (ad_stage =? 3)%Z; [exists stage3; split; [done|apply stage_dom]|].
  exists id. split; [|done].
  induction c as [|sec c IH]; cbn; [done|]. rewrite <- IH. f_equal.
  induction sec as [|seg sec IHs]; cbn; [done|]. by rewrite <- IHs.
Qed.

(** X17. Loading never changes the shape of the cell: with any [ad] and
    [ad_stage], the loaded cell has the sections of the healthy baseline, each
    section its segments and each segment its mechanisms; a mechanism other
    than NaTg, Nap, Kv3_1, SK, K_T, Ih and pas keeps its conductance; and with
    [ad] false, or a stage other than 1, 2 and 3, the cell is the baseline. *)
Theorem ad_load_keeps_shape (baseline : cell) (ad : bool) (ad_stage : option Z) :
  let loaded := loadCell_HL23PYR baseline ad ad_stage in
  length loaded = length baseline ∧
  (∀ i, length <$> loaded !! i = length <$> baseline !! i) ∧
  (∀ i j, dom <$> (loaded !! i ≫= (.!! j)) = dom <$> (baseline !! i ≫= (.!! j))) ∧
  (∀ i j mech,
      mech ∉ ["NaTg"; "Nap"; "Kv3_1"; "SK"; "K_T"; "Ih"; "pas"] →
      conductance loaded i j mech = conductance baseline i j mech) ∧
  (ad = false ∨ (∃ s, ad_stage = Some s ∧ s ≠ 1 ∧ s ≠ 2 ∧ s ≠ 3)%Z →
   loaded = baseline).
Proof.
  intros loaded.
  assert (Hload : ∃ s, loaded = apply_AD_changes_to_HL23PYR baseline s).
  { unfold loaded, loadCell_HL23PYR. destruct ad; [by eexists|].
    exists 0%Z. reflexivity. }
  destruct Hload as [s Hs].
  destruct (apply_AD_shape baseline s) as (f & Hf & Hdom).
  rewrite Hf in Hs.
  repeat split.
  - rewrite Hs. apply length_map.
  - intros i. rewrite Hs, lookup_map.
    destruct (baseline !! i) as [sec|]; cbn; [|done]. by rewrite length_map.
  - intros i j. rewrite Hs, lookup_map.
    destruct (baseline !! i) as [sec|]; cbn; [|done]. rewrite lookup_map.
    destruct (sec !! j) as [seg|]; cbn; [|done]. by rewrite Hdom.
  - intros i j mech Hmech. rewrite Hs, <- Hf, conductance_after_stage.
    replace (ad_factor s mech) with (@None Q); [done|].
    symmetry. unfold ad_factor.
    assert (Hne : ∀ name, name ∈ ["NaTg"; "Nap"; "Kv3_1"; "SK"; "K_T"; "Ih"; "pas"] →
                          name ≠ mech) by (by intros name Hin ->).
    repeat match goal with |- context [(?a =? ?b)%Z] => destruct (a =? b)%Z end;
      try done;
      repeat first [ rewrite lookup_insert_ne by (apply Hne; repeat constructor)
                   | rewrite lookup_singleton_ne by (apply Hne; repeat constructor) ];
      done.
  - intros [->|(s' & -> & H1 & H2 & H3)]; [done|].
    unfold loaded, loadCell_HL23PYR, apply_AD_changes_to_HL23PYR.
    destruct ad; [|done]. cbn [default from_option id].
    apply Z.eqb_neq in H1, H2, H3. by rewrite H1, H2, H3.
Qed.

Lemma ad_load_keeps_shape_witness :
  let baseline : cell :=
    [[({[ "Kv3_1" := 1 # 10; "Ca_HVA" := 3 # 100 ]} : gmap string Q)]] in
  conductance (loadCell_HL23PYR baseline true (Some 2%Z)) 0 0 "Ca_HVA" = Some (3 # 100) ∧
  loadCell_HL23PYR baseline true (Some 4%Z) = baseline.
Proof.
  intros baseline. split.
  - destruct (ad_load_keeps_shape baseline true (Some 2%Z)) as (_ & _ & _ & H & _).
    rewrite H; [reflexivity|].
    apply (bool_decide_unpack _). vm_compute. exact I.
  - destruct (ad_load_keeps_shape baseline true (Some 4%Z)) as (_ & _ & _ & _ & H).
    apply H. right. exists 4%Z. repeat split; discriminate.
Defined.

Ltac eval_factors :=
  repeat match goal with
         | |- context [ad_factor ?s ?m] =>
             let f := eval vm_compute in (ad_factor s m) in
             change (ad_factor s m) with f
         end.

(** X18. How the stages order a conductance.  For a mechanism present in a
    segment with a positive healthy conductance [g], write [g1], [g2], [g3]
    for its conductance after stage 1, 2 and 3 applied to the healthy cell.
    The potassium channels Kv3_1, SK, K_T and Ih fall with the stage:
    [g3 < g2 < g1 < g].  NaTg is raised most by stage 1: [g < g2 < g3 < g1].
    Nap is raised most by stage 3: [g < g2 < g1 < g3].  The leak [pas] is
    untouched by stage 1 and grows after: [g1 = g < g2 < g3]. *)
Theorem ad_stage_ordering (c : cell) (i j : nat) (mech : string) (g : Q) :
  conductance c i j mech = Some g →
  0 < g →
  mech ∈ ["NaTg"; "Nap"; "Kv3_1"; "SK"; "K_T"; "Ih"; "pas"] →
  ∃ g1 g2 g3,
    conductance (apply_AD_changes_to_HL23PYR c 1) i j mech = Some g1 ∧
    conductance (apply_AD_changes_to_HL23PYR c 2) i j mech = Some g2 ∧
    conductance (apply_AD_changes_to_HL23PYR c 3) i j mech = Some g3 ∧
    (mech ∈ ["Kv3_1"; "SK"; "K_T"; "Ih"] → g3 < g2 ∧ g2 < g1 ∧ g1 < g) ∧
    (mech = "NaTg" → g < g2 ∧ g2 < g3 ∧ g3 < g1) ∧
    (mech = "Nap" → g < g2 ∧ g2 < g1 ∧ g1 < g3) ∧
    (mech = "pas" → g1 = g ∧ g < g2 ∧ g2 < g3).
Proof.
  intros Hg Hpos Hmech.
  exists (default g (scaled_by (ad_factor 1 mech) (Some g))),
         (default g (scaled_by (ad_factor 2 mech) (Some g))),
         (default g (scaled_by (ad_factor 3 mech) (Some g))).
  rewrite !conductance_after_stage, Hg.
  repeat (apply elem_of_cons in Hmech as [->|Hmech]);
    [..|by apply elem_of_nil in Hmech];
    eval_factors; cbn [scaled_by from_option default id fmap option_fmap option_map];
    (split; [reflexivity|]); (split; [reflexivity|]); (split; [reflexivity|]);
    (split; [intros Hin; try (exfalso; revert Hin;
                              apply (bool_decide_unpack _); vm_compute; exact I)|]);
    repeat split; try discriminate; try reflexivity; try lra.
Qed.

Lemma ad_stage_ordering_witness :
  let c : cell := [[({[ "SK" := 1 # 10; "pas" := 3 # 100 ]} : gmap string Q)]] in
  ∃ g1 g2 g3,
    conductance (apply_AD_changes_to_HL23PYR c 1) 0 0 "SK" = Some g1 ∧
    conductance (apply_AD_changes_to_HL23PYR c 2) 0 0 "SK" = Some g2 ∧
    conductance (apply_AD_changes_to_HL23PYR c 3) 0 0 "SK" = Some g3 ∧
    g3 < g2 ∧ g2 < g1 ∧ g1 < 1 # 10.
Proof.
  intros c.
  destruct (ad_stage_ordering c 0 0 "SK" (1 # 10)) as (g1 & g2 & g3 & H1 & H2 & H3 & HK & _).
  - reflexivity.
  - reflexivity.
  - apply (bool_decide_unpack _). vm_compute. exact I.
  - exists g1, g2, g3. repeat split; try assumption; apply HK;
      apply (bool_decide_unpack _); vm_compute; exact I.
Defined.

(** ** The section lists *)

Import NetParams.

Lemma filter_complement_length {A} (P : A → Prop) `{∀ x, Decision (P x)} (l : list A) :
  (length (filter P l) + length (filter (λ x, ¬ P x) l) = length l)%nat.
Proof.
  induction l as [|x l IH]; [done|].
  rewrite !filter_cons. destruct (decide (P x)), (decide (¬ P x)); cbn; try done; lia.
Qed.

Lemma filter_agree {A} (P R : A → Prop) `{∀ x, Decision (P x)} `{∀ x, Decision (R x)}
    (l : list A) :
  (∀ x, x ∈ l → P x ↔ R x) → filter P l = filter R l.
Proof.
  induction l as [|x l IH]; intros Hl; [done|].
  rewrite !filter_cons.
  assert (Hx : P x ↔ R x) by (apply Hl; left).
  rewrite IH by (intros y Hy; apply Hl; by right).
  destruct (decide (P x)), (decide (R x)); tauto.
Qed.

(** X19. The section lists split the sections of a cell.  A section is in
    [spiny] exactly when it is a section of the cell whose name contains none
    of soma, axon and myelin; [spiny] is the sections of the cell in their
    order with the non-spiny ones removed; each section of the cell is in
    exactly one of [spiny] and [nonSpiny], and the two lengths add up to the
    number of sections. *)
Theorem spiny_nonSpiny_split (all_secs : list string) :
  let soma_like := λ sec : string,
    contains "soma" sec || contains "axon" sec || contains "myelin" sec in
  spiny all_secs = filter (λ sec, ¬ soma_like sec) all_secs ∧
  (∀ sec, sec ∈ spiny all_secs ↔ sec ∈ all_secs ∧ soma_like sec = false) ∧
  (∀ sec, sec ∈ all_secs →
          (sec ∈ spiny all_secs ∧ sec ∉ nonSpiny all_secs) ∨
          (sec ∈ nonSpiny all_secs ∧ sec ∉ spiny all_secs)) ∧
  (length (spiny all_secs) + length (nonSpiny all_secs) = length all_secs)%nat.
Proof.
  intros soma_like.
  assert (Hspiny : spiny all_secs = filter (λ sec, ¬ soma_like sec) all_secs).
  { unfold spiny. apply filter_agree. intros sec Hin. unfold nonSpiny.
    rewrite list_elem_of_filter. fold (soma_like sec). tauto. }
  assert (Hmem : ∀ sec, sec ∈ spiny all_secs ↔ sec ∈ all_secs ∧ soma_like sec = false).
  { intros sec. rewrite Hspiny, list_elem_of_filter.
    destruct (soma_like sec); cbn; intuition congruence. }
  assert (Hnon : ∀ sec, sec ∈ nonSpiny all_secs ↔ sec ∈ all_secs ∧ soma_like sec = true).
  { intros sec. unfold nonSpiny. rewrite list_elem_of_filter. fold (soma_like sec).
    destruct (soma_like sec); cbn; intuition congruence. }
  split; [exact Hspiny|]. split; [exact Hmem|]. split.
  - intros sec Hin. rewrite Hmem, Hnon.
    destruct (soma_like sec); [right|left]; intuition congruence.
  - rewrite Hspiny. unfold nonSpiny. fold soma_like.
    rewrite Nat.add_comm.
    apply (filter_complement_length (λ sec, Is_true (soma_like sec))).
Qed.
